(** * The ReAct agent built from scratch (docs/docs/how-tos/react-agent-from-scratch.ipynb)

    A shallow embedding of the three functions the notebook writes itself
    ([tool_node], [call_model], [should_continue]), of the weather tool they
    dispatch to, and of the graph the notebook wires them into, followed by
    the properties of the agent loop. *)

From Stdlib Require Import ZArith NArith String Ascii List DecimalString.
From Stdlib Require Import DecimalFacts DecimalPos.
From stdpp Require Import base option list gmap relations.

Local Open Scope N_scope.
#[local] Set Warnings "-register-all".

(** ** Python strings

    A Python [str] is a sequence of Unicode code points.  The tool's answer
    contains U+1F608 and [json.dumps] escapes by code point, so strings are
    lists of code points rather than bytes. *)

Abbreviation str := (list N).

(** An ASCII literal as a Python string. *)
Definition py (s : string) : str := map N_of_ascii (list_ascii_of_string s).
Arguments py : simpl never.

(** [s.startswith(p)] *)
Fixpoint startswith (p s : str) : bool :=
  match p, s with
  | [], _ => true
  | _ :: _, [] => false
  | a :: p', b :: s' => (a =? b) && startswith p' s'
  end.

(** [p in s] on strings: [p] occurs in [s] as a contiguous run. *)
Fixpoint str_in (p s : str) : bool :=
  startswith p s ||
  match s with
  | [] => false
  | _ :: s' => str_in p s'
  end.

(** [sep.join(parts)] *)
Fixpoint join (sep : str) (parts : list str) : str :=
  match parts with
  | [] => []
  | [x] => x
  | x :: rest => x ++ sep ++ join sep rest
  end.

(** [str.lower()] restricted to the ASCII letters; every other code point is
    kept.  It agrees with Python on ASCII strings, and is the instance used
    when the development runs the agent on concrete inputs.  The functions
    below take the lowering function as a parameter. *)
Definition ascii_lower_char (c : N) : N :=
  if (65 <=? c) && (c <=? 90) then c + 32 else c.

Definition ascii_lower (s : str) : str := map ascii_lower_char s.

(** ** Exceptions and results

    A Python call either returns a value or raises; nothing in the notebook
    catches an exception, so a raise ends the enclosing call. *)

Inductive exn : Type :=
  | IndexError
  | AttributeError (attr : str)
  | KeyError (key : str)
  | TypeError
  | ValidationError
  | AssertionError (msg : str)
  | Exception (msg : str)
  | OSError
  | ValueError
  | UnicodeEncodeError.

Inductive result (A : Type) : Type :=
  | Ok (a : A)
  | Raise (e : exn).

Arguments Ok {A} a.
Arguments Raise {A} e.

#[global] Instance result_ret : MRet result := fun _ a => Ok a.
#[global] Instance result_bind : MBind result := fun _ _ k r =>
  match r with
  | Ok a => k a
  | Raise e => Raise e
  end.

Definition returns {A} (r : result A) : bool :=
  match r with Ok _ => true | Raise _ => false end.

(** ** Python values and [json.dumps]

    The values a tool receives and returns.  [PyObject] stands for any value
    [json] has no encoder for (a set, a class instance); floats are left out
    of the value universe. Dictionaries keep insertion order and have string
    keys. *)

Inductive pyval : Type :=
  | PyNone
  | PyBool (b : bool)
  | PyInt (z : Z)
  | PyStr (s : str)
  | PyList (l : list pyval)
  | PyDict (d : list (str * pyval))
  | PyObject (repr : str).

Definition QUOTE : N := 34.
Definition BACKSLASH : N := 92.

(** One lowercase hexadecimal digit, as a character. *)
Definition hex_digit (d : N) : N := if d <? 10 then 48 + d else 87 + d.

(** ['\\u{0:04x}'.format(n)] for [n < 0x10000]. *)
Definition u_escape (n : N) : str :=
  [BACKSLASH; 117;
   hex_digit (N.land (N.shiftr n 12) 15); hex_digit (N.land (N.shiftr n 8) 15);
   hex_digit (N.land (N.shiftr n 4) 15); hex_digit (N.land n 15)].

(** The replacement [json.encoder.py_encode_basestring_ascii] makes for one
    character: the short escapes of [ESCAPE_DCT], printable ASCII kept, and a
    [\uXXXX] escape (a surrogate pair above the basic plane) for the rest. *)
Definition escape_char (c : N) : str :=
  if c =? BACKSLASH then [BACKSLASH; BACKSLASH]
  else if c =? QUOTE then [BACKSLASH; QUOTE]
  else if c =? 8 then [BACKSLASH; 98]
  else if c =? 12 then [BACKSLASH; 102]
  else if c =? 10 then [BACKSLASH; 110]
  else if c =? 13 then [BACKSLASH; 114]
  else if c =? 9 then [BACKSLASH; 116]
  else if (32 <=? c) && (c <=? 126) then [c]
  else if c <? 65536 then u_escape c
  else
    let n := c - 65536 in
    u_escape (N.lor 55296 (N.land (N.shiftr n 10) 1023)) ++
    u_escape (N.lor 56320 (N.land n 1023)).

Definition encode_basestring_ascii (s : str) : str :=
  [QUOTE] ++ flat_map escape_char s ++ [QUOTE].

(** [str(z)] for an integer. *)
Definition str_of_int (z : Z) : str := py (NilZero.string_of_int (Z.to_int z)).

(** [json.dumps(v)] with the default options: [ensure_ascii=True], item
    separator [", "], key separator [": "]; [TypeError] on a value that is not
    JSON serializable. *)
Fixpoint json_dumps (v : pyval) : result str :=
  match v with
  | PyNone => Ok (py "null")
  | PyBool true => Ok (py "true")
  | PyBool false => Ok (py "false")
  | PyInt z => Ok (str_of_int z)
  | PyStr s => Ok (encode_basestring_ascii s)
  | PyList l =>
      items ← (fix dump_items (l : list pyval) : result (list str) :=
                 match l with
                 | [] => Ok []
                 | x :: rest =>
                     s ← json_dumps x; ss ← dump_items rest; Ok (s :: ss)
                 end) l;
      Ok (py "[" ++ join (py ", ") items ++ py "]")
  | PyDict d =>
      items ← (fix dump_pairs (d : list (str * pyval)) : result (list str) :=
                 match d with
                 | [] => Ok []
                 | (k, x) :: rest =>
                     s ← json_dumps x; ss ← dump_pairs rest;
                     Ok ((encode_basestring_ascii k ++ py ": " ++ s) :: ss)
                 end) d;
      Ok (py "{" ++ join (py ", ") items ++ py "}")
  | PyObject _ => Raise TypeError
  end.

(** ** Containers *)

(** [l[-1]]: the last item, [IndexError] on the empty list. *)
Definition last_item {A} (l : list A) : result A :=
  match last l with
  | Some x => Ok x
  | None => Raise IndexError
  end.

(** [d[k]] on a dictionary with string keys: [KeyError] on a missing key. *)
Definition getitem {V} (d : gmap str V) (k : str) : result V :=
  match d !! k with
  | Some v => Ok v
  | None => Raise (KeyError k)
  end.

(** Truth value of a list: [not l] holds exactly for the empty list. *)
Definition truthy {A} (l : list A) : bool :=
  match l with
  | [] => false
  | _ :: _ => true
  end.

(** [any(bs)] *)
Definition any (bs : list bool) : bool := foldr orb false bs.

(** ** Messages (langchain_core.messages)

    The notebook imports the message classes; it does not define them. *)

Module ToolCall.
(** Modelled from the spec: a tool call is a call identifier, a tool name and
    an argument mapping with string keys; the fields are named by the keys
    [tool_node] reads, [name], [args] and [id]. *)
Record t : Type := mk { name : str; args : gmap str pyval; id : str }.
End ToolCall.

(** Modelled from the spec: what the model client answers with, a
    model-authored message that carries zero or more tool calls. *)
Record ai_message : Type := AI {
  ai_content : str;
  ai_tool_calls : list ToolCall.t
}.

(** Modelled from the spec: a message is a tagged variant over
    human-authored, model-authored and tool-result, of which only the
    model-authored one carries tool calls; [SystemMessage] and the three
    fields of [ToolMessage] are as [call_model] and [tool_node] construct
    them. *)
Inductive BaseMessage : Type :=
  | HumanMessage (content : str)
  | SystemMessage (content : str)
  | AIMessage (ai : ai_message)
  | ToolMessage (content : str) (name : str) (tool_call_id : str).

(** [m.tool_calls]: attribute access, [AttributeError] on a message class
    without the attribute. *)
Definition tool_calls (m : BaseMessage) : result (list ToolCall.t) :=
  match m with
  | AIMessage ai => Ok (ai_tool_calls ai)
  | _ => Raise (AttributeError (py "tool_calls"))
  end.

Definition is_tool_message (m : BaseMessage) : bool :=
  match m with
  | ToolMessage _ _ _ => true
  | _ => false
  end.

Definition is_system_message (m : BaseMessage) : bool :=
  match m with
  | SystemMessage _ => true
  | _ => false
  end.

(** [AgentState]: a dictionary with the single key [messages].  A node
    returns an update of the same shape. *)
Record AgentState : Type := State { messages : list BaseMessage }.

(** The run configuration, a dictionary the nodes only pass on. *)
Definition RunnableConfig : Type := list (str * pyval).

(** ** Tools (langchain_core.tools) *)

Module Tool.
(** Modelled from the spec: a capability is registered under a name and is
    invoked on an argument mapping; it returns a value or raises. *)
Record t : Type := mk { name : str; invoke : gmap str pyval → result pyval }.
End Tool.

(** [@tool] on a function of one string parameter: [invoke] takes the
    argument mapping of a tool call, checks it against the declared
    parameter and calls the function. *)
Definition tool (fname param : str) (f : str → result pyval) : Tool.t :=
  Tool.mk fname
    (λ args, match args !! param with
             | Some (PyStr s) => f s
             | _ => Raise ValidationError
             end).

Definition cities : list str := [py "sf"; py "san francisco"].

Definition sunny : str :=
  py "It's sunny in San Francisco, but you better look out if you're a Gemini "
  ++ [128520] ++ py ".".

Section Tools.
(** [str.lower] *)
Variable lower : str → str.

Definition get_weather (location : str) : result pyval :=
  if any (map (λ city, str_in city (lower location)) cities)
  then Ok (PyStr sunny)
  else Ok (PyStr (py "I am not sure what the weather is in " ++ location)).

Definition tools : list Tool.t :=
  [tool (py "get_weather") (py "location") get_weather].
End Tools.

(** [{tool.name: tool for tool in tools}] *)
Definition by_name (tools : list Tool.t) : gmap str Tool.t :=
  foldl (λ d t, <[Tool.name t := t]> d) ∅ tools.

(** The tool of the same name in persistence_mongodb.ipynb, which is handed
    to the prebuilt agent and not to [tool_node]. *)
Module Mongodb.
(** The function under the decorator. *)
Definition get_weather (city : str) : result pyval :=
  if decide (city = py "nyc") then Ok (PyStr (py "It might be cloudy in nyc"))
  else if decide (city = py "sf") then Ok (PyStr (py "It's always sunny in sf"))
  else Raise (AssertionError (py "Unknown city")).

(** [@tool] on a function whose parameter is annotated [Literal[...]]:
    [invoke] checks the argument mapping against the declared parameter,
    which allows the listed strings only, and then calls the function. *)
Definition tool_literal (fname param : str) (allowed : list str)
    (f : str → result pyval) : Tool.t :=
  Tool.mk fname
    (λ args, match args !! param with
             | Some (PyStr s) =>
                 if decide (s ∈ allowed) then f s else Raise ValidationError
             | _ => Raise ValidationError
             end).

(** [tools = [get_weather]], the decorated object. *)
Definition tools : list Tool.t :=
  [tool_literal (py "get_weather") (py "city") [py "nyc"; py "sf"] get_weather].
End Mongodb.

(** ** The nodes and the conditional edge *)

Definition system_prompt : BaseMessage :=
  SystemMessage (py "You are a helpful AI assistant, please respond to the users query to the best of your ability!").

Section Nodes.
(** The registry [tools_by_name] and the chat model [model] (with the tools
    bound) are globals of the notebook. *)
Variable tools_by_name : gmap str Tool.t.
Variable model : list BaseMessage → RunnableConfig → result ai_message.

(** The body of the [for] loop of [tool_node], with the list [outputs]
    built so far. *)
Fixpoint tool_node_loop (calls : list ToolCall.t) (outputs : list BaseMessage)
  : result (list BaseMessage) :=
  match calls with
  | [] => Ok outputs
  | tool_call :: rest =>
      t ← getitem tools_by_name (ToolCall.name tool_call);
      tool_result ← Tool.invoke t (ToolCall.args tool_call);
      content ← json_dumps tool_result;
      tool_node_loop rest
        (outputs ++ [ToolMessage content (ToolCall.name tool_call)
                                 (ToolCall.id tool_call)])
  end.

Definition tool_node (state : AgentState) : result AgentState :=
  last_message ← last_item (messages state);
  calls ← tool_calls last_message;
  outputs ← tool_node_loop calls [];
  Ok (State outputs).

Definition call_model (state : AgentState) (config : RunnableConfig)
  : result AgentState :=
  response ← model ([system_prompt] ++ messages state) config;
  Ok (State [AIMessage response]).

Definition should_continue (state : AgentState) : result str :=
  let messages := messages state in
  last_message ← last_item messages;
  calls ← tool_calls last_message;
  if negb (truthy calls) then Ok (py "end") else Ok (py "continue").
End Nodes.

(** ** The graph (langgraph.graph)

    The notebook builds the graph with [StateGraph]; the builder, the reducer
    and the executor behind [compile] belong to the library. *)

Definition START : str := py "__start__".
Definition END : str := py "__end__".

Definition node_fn : Type := AgentState → RunnableConfig → result AgentState.

(** Modelled from the spec: the reducer [add_messages] of
    langgraph.graph.message, which the state annotation names, is not under
    src/; the spec gives its semantics as concatenation, not replacement. *)
Definition add_messages (left right : list BaseMessage) : list BaseMessage :=
  left ++ right.

(** Modelled from the spec: the executor appends the update a node returns to
    the persisted state. *)
Definition update_state (state delta : AgentState) : AgentState :=
  State (add_messages (messages state) (messages delta)).

(** Modelled from the spec: what the builder [StateGraph] collects (its class
    is not under src/): the steps by name, the unconditional edges, and for a
    conditional edge the source, the predicate and the routing table. *)
Record StateGraph : Type := Graph {
  nodes : gmap str node_fn;
  edges : list (str * str);
  branches : list (str * (AgentState → result str) * gmap str str)
}.

Definition StateGraph_new : StateGraph := Graph ∅ [] [].

Definition add_node (key : str) (fn : node_fn) (g : StateGraph) : StateGraph :=
  Graph (<[key := fn]> (nodes g)) (edges g) (branches g).

Definition add_edge (start_key end_key : str) (g : StateGraph) : StateGraph :=
  Graph (nodes g) (edges g ++ [(start_key, end_key)]) (branches g).

Definition set_entry_point (key : str) (g : StateGraph) : StateGraph :=
  add_edge START key g.

Definition add_conditional_edges (source : str) (path : AgentState → result str)
    (path_map : gmap str str) (g : StateGraph) : StateGraph :=
  Graph (nodes g) (edges g) (branches g ++ [(source, path, path_map)]).

(** Modelled from the spec: the routing of one conditional edge: the
    predicate is evaluated on the state and its label is looked up in the
    routing table. *)
Definition branch_targets (n : str) (state : AgentState)
    (b : str * (AgentState → result str) * gmap str str) : result (list str) :=
  let '(source, path, path_map) := b in
  if decide (source = n)
  then label ← path state; target ← getitem path_map label; Ok [target]
  else Ok [].

(** Modelled from the spec: the steps that follow [n] in state [state]: the
    targets of its unconditional edges, then those its conditional edges
    route to. *)
Definition successors (g : StateGraph) (n : str) (state : AgentState)
  : result (list str) :=
  let static := (filter (λ e, e.1 = n) (edges g)).*2 in
  routed ← mapM (branch_targets n state) (branches g);
  Ok (static ++ concat routed).

(** Modelled from the spec: one move of the executor.  From [START] it
    follows the entry edge; at a step it runs the step, appends the update
    and routes on the new state; [END] has no step to run. *)
Definition exec_step (g : StateGraph) (config : RunnableConfig)
    (c : str * AgentState) : result (list (str * AgentState)) :=
  let '(n, state) := c in
  if decide (n = START)
  then next ← successors g n state; Ok (map (λ n', (n', state)) next)
  else match nodes g !! n with
       | None => Ok []
       | Some fn =>
           delta ← fn state config;
           let state' := update_state state delta in
           next ← successors g n state';
           Ok (map (λ n', (n', state')) next)
       end.

Definition step (g : StateGraph) (config : RunnableConfig)
    (c c' : str * AgentState) : Prop :=
  ∃ l, exec_step g config c = Ok l ∧ c' ∈ l.

(** Modelled from the spec: [graph.invoke(inputs, config)], bounded by a
    number of moves: it follows the executor from [START] until no step is
    left to run. *)
Fixpoint run (g : StateGraph) (config : RunnableConfig) (fuel : nat)
    (c : str * AgentState) : result (str * AgentState) :=
  match fuel with
  | O => Ok c
  | S fuel' =>
      l ← exec_step g config c;
      match l with
      | [] => Ok c
      | c' :: _ => run g config fuel' c'
      end
  end.

Section Workflow.
Variable tools_by_name : gmap str Tool.t.
Variable model : list BaseMessage → RunnableConfig → result ai_message.

Definition routes : gmap str str :=
  <[py "continue" := py "tools"]> (<[py "end" := END]> ∅).

Definition workflow : StateGraph :=
  let workflow := StateGraph_new in
  let workflow := add_node (py "agent") (call_model model) workflow in
  let workflow :=
    add_node (py "tools") (λ state _, tool_node tools_by_name state) workflow in
  let workflow := set_entry_point (py "agent") workflow in
  let workflow :=
    add_conditional_edges (py "agent") should_continue routes workflow in
  let workflow := add_edge (py "tools") (py "agent") workflow in
  workflow.
End Workflow.

(** A transition of the loop: [n'] follows [n] in state [state]. *)
Definition transition (g : StateGraph) (state : AgentState) (n n' : str) : Prop :=
  ∃ l, successors g n state = Ok l ∧ n' ∈ l.

(** ** The message invariant

    Every tool-result message sits in the run of tool results that follows a
    model-authored message, and its reference is the identifier of one of
    that message's tool calls. *)
Definition answers_preceding (msgs : list BaseMessage) : Prop :=
  ∀ pre content name tool_call_id post,
    msgs = pre ++ ToolMessage content name tool_call_id :: post →
    ∃ pre' ai mid,
      pre = pre' ++ AIMessage ai :: mid ∧
      forallb is_tool_message mid = true ∧
      tool_call_id ∈ ToolCall.id <$> ai_tool_calls ai.

(** The final message is model-authored and carries one or more tool calls. *)
Definition final_has_tool_calls (state : AgentState) : Prop :=
  ∃ pre ai, messages state = pre ++ [AIMessage ai] ∧ ai_tool_calls ai ≠ [].

(** The final message is model-authored and carries no tool call. *)
Definition final_has_no_tool_call (state : AgentState) : Prop :=
  ∃ pre ai, messages state = pre ++ [AIMessage ai] ∧ ai_tool_calls ai = [].

(** [content] of a message. *)
Definition content_of (m : BaseMessage) : str :=
  match m with
  | HumanMessage content | SystemMessage content | ToolMessage content _ _ => content
  | AIMessage ai => ai_content ai
  end.

(** The message [m] is what the loop of [tool_node] appends for the call
    [tc]: the tool registered under the call's name was invoked on the
    call's arguments, and [m] is a tool result holding the serialized value,
    the tool's name and the call's identifier. *)
Definition answered (tools_by_name : gmap str Tool.t) (tc : ToolCall.t)
    (m : BaseMessage) : Prop :=
  ∃ t v content,
    tools_by_name !! ToolCall.name tc = Some t ∧
    Tool.invoke t (ToolCall.args tc) = Ok v ∧
    json_dumps v = Ok content ∧
    m = ToolMessage content (ToolCall.name tc) (ToolCall.id tc).

(** Dispatching the call [tc] succeeds: its tool is registered, the
    invocation returns and the value is serializable. *)
Definition dispatchable (tools_by_name : gmap str Tool.t) (tc : ToolCall.t) : Prop :=
  ∃ t v content,
    tools_by_name !! ToolCall.name tc = Some t ∧
    Tool.invoke t (ToolCall.args tc) = Ok v ∧
    json_dumps v = Ok content.

(** ** The run of the notebook

    The recorded exchange: the model first asks for the weather tool, then
    answers in text. *)
Definition recorded_call : ToolCall.t :=
  ToolCall.mk (py "get_weather")
    {[ py "location" := PyStr (py "San Francisco") ]}
    (py "call_azW0cQ4XjWWj0IAkWAxq9nLB").

(** A call to a tool the notebook does not register. *)
Definition unregistered_call : ToolCall.t :=
  ToolCall.mk (py "search") {[ py "query" := PyStr (py "weather sf") ]} (py "call_1").

Definition recorded_answer : str :=
  py "The weather in San Francisco is sunny! However, it seems there's a playful warning for Geminis. Enjoy the sunshine!".

Definition recorded_model (msgs : list BaseMessage) (config : RunnableConfig)
  : result ai_message :=
  if decide (length msgs = 2%nat) then Ok (AI [] [recorded_call])
  else Ok (AI recorded_answer []).

(** A client that answers with the contents of the messages it was sent. *)
Definition echo_model (msgs : list BaseMessage) (config : RunnableConfig)
  : result ai_message :=
  Ok (AI (join (py " | ") (map content_of msgs)) []).

Definition inputs : AgentState :=
  State [HumanMessage (py "what is the weather in sf")].

Definition notebook_registry : gmap str Tool.t := by_name (tools ascii_lower).

Definition graph : StateGraph := workflow notebook_registry recorded_model.

Definition recorded_tool_output : str :=
  [QUOTE] ++
  py "It's sunny in San Francisco, but you better look out if you're a Gemini \ud83d\ude08."
  ++ [QUOTE].

(** The messages the notebook prints at the end of the run. *)
Definition recorded_final : AgentState :=
  State [HumanMessage (py "what is the weather in sf");
         AIMessage (AI [] [recorded_call]);
         ToolMessage recorded_tool_output (py "get_weather")
                     (py "call_azW0cQ4XjWWj0IAkWAxq9nLB");
         AIMessage (AI recorded_answer [])].

(** ** Environment set-up ([_set_env], in both notebooks) *)

(** Truth value of [os.environ.get(var)]: [None] for a variable that is not
    set, else its value; [None] and the empty string are false. *)
Definition truthy_value (v : option str) : bool :=
  match v with
  | None => false
  | Some s => truthy s
  end.

(** Code points the file-system encoding (UTF-8 with [surrogateescape])
    cannot encode: the surrogates other than U+DC80..U+DCFF. *)
Definition unencodable (c : N) : bool :=
  ((55296 <=? c) && (c <? 56448)) || ((56575 <? c) && (c <=? 57343)).

(** [s] contains the character [c]. *)
Definition has_char (c : N) (s : str) : bool := existsb (N.eqb c) s.

(** [os.environ.get(var)].  [os.environ] is threaded through as a dictionary
    from names to values.  The names it holds can be encoded; for any other
    name the encoding of the key raises before the lookup. *)
Definition environ_get (environ : gmap str str) (var : str) : result (option str) :=
  match environ !! var with
  | Some value => Ok (Some value)
  | None => if existsb unencodable var then Raise UnicodeEncodeError else Ok None
  end.

(** [os.environ[var] = value]: name and value are encoded
    ([UnicodeEncodeError]), then [putenv] rejects an embedded null byte and
    a name with "=" ([ValueError]), and the empty name ([OSError]); only then
    is the entry stored. *)
Definition environ_set (var value : str) (environ : gmap str str)
  : result (gmap str str) :=
  if existsb unencodable var || existsb unencodable value
  then Raise UnicodeEncodeError
  else if has_char 0 var || has_char 0 value then Raise ValueError
  else if has_char 61 var then Raise ValueError
  else if negb (truthy var) then Raise OSError
  else Ok (<[var := value]> environ).



Section Environment.
(** [getpass.getpass(prompt)]: what is typed at the prompt, or an exception
    (no terminal, interrupt). *)
Variable getpass : str → result str.

Definition _set_env (var : str) (environ : gmap str str) : result (gmap str str) :=
  current ← environ_get environ var;
  if negb (truthy_value current)
  then value ← getpass (var ++ py ": "); environ_set var value environ
  else Ok environ.
End Environment.


(** ** Printing a stream ([print_stream]) *)

(** An item of [s["messages"]]: a tuple such as [("user", text)], as the
    notebook writes its input, or a message object. *)
Inductive message_like : Type :=
  | TupleMessage (role content : str)
  | ObjectMessage (m : BaseMessage).

(** A streamed state [s], read through [s["messages"]]. *)
Record streamed : Type := Streamed { streamed_messages : list message_like }.

(** The iterable handed to [print_stream]: it yields states until it is
    exhausted or raises. *)
Inductive generator : Type :=
  | Exhausted
  | Yield (s : streamed) (rest : generator)
  | Fails (e : exn).

(** What reaches the output: [print(message)] of a tuple, or
    [message.pretty_print()] of a message object. *)
Inductive printed : Type :=
  | Print (role content : str)
  | PrettyPrint (m : BaseMessage).

Definition show (message : message_like) : printed :=
  match message with
  | TupleMessage role content => Print role content
  | ObjectMessage m => PrettyPrint m
  end.

(** The state [s] has a last message, shown as [p]. *)
Definition shows_last (s : streamed) (p : printed) : Prop :=
  ∃ message, last (streamed_messages s) = Some message ∧ p = show message.

(** The [for] loop of [print_stream], with what was printed so far.  The
    output is returned together with the outcome, since what was printed
    stays printed when an exception ends the loop. *)
Fixpoint print_stream_loop (stream : generator) (out : list printed)
  : list printed * result unit :=
  match stream with
  | Exhausted => (out, Ok tt)
  | Fails e => (out, Raise e)
  | Yield s rest =>
      match last_item (streamed_messages s) with
      | Raise e => (out, Raise e)
      | Ok message => print_stream_loop rest (out ++ [show message])
      end
  end.

Definition print_stream (stream : generator) : list printed * result unit :=
  print_stream_loop stream [].

(** The generator that yields the states of a list and then goes on as
    [finish]. *)
Fixpoint yield_all (states : list streamed) (finish : generator) : generator :=
  match states with
  | [] => finish
  | s :: rest => Yield s (yield_all rest finish)
  end.

(** What [call_model] makes of the client's outcome: the answer becomes the
    single message of the delta, an exception is passed on. *)
Definition delta_of (outcome : result ai_message) : result AgentState :=
  match outcome with
  | Ok response => Ok (State [AIMessage response])
  | Raise e => Raise e
  end.

(** ** Predicates used by the further properties *)

(** Code points that are printable ASCII. *)
Definition printable (c : N) : Prop := 32 ≤ c ≤ 126.

(** Dispatching the call [tc] fails with [e]: the name is not registered,
    the tool raises, or its value is not serializable. *)
Definition dispatch_fails (tools_by_name : gmap str Tool.t) (tc : ToolCall.t)
    (e : exn) : Prop :=
  (tools_by_name !! ToolCall.name tc = None ∧ e = KeyError (ToolCall.name tc)) ∨
  (∃ t, tools_by_name !! ToolCall.name tc = Some t ∧
        Tool.invoke t (ToolCall.args tc) = Raise e) ∨
  (∃ t v, tools_by_name !! ToolCall.name tc = Some t ∧
          Tool.invoke t (ToolCall.args tc) = Ok v ∧
          json_dumps v = Raise e).

(** ** JSON texts

    The grammar of JSON (RFC 8259), as a relation between a text and the
    value it denotes.  It is written from the grammar, not from the encoder:
    it says what a reader of the tool message is entitled to, and is what
    [json_dumps] is measured against.  Numbers are the integers, the only
    numbers among the values of this development. *)

(** Insignificant whitespace: space, tab, line feed, carriage return. *)
Definition is_ws (c : N) : bool := (c =? 32) || (c =? 9) || (c =? 10) || (c =? 13).

Definition ws (w : str) : Prop := forallb is_ws w = true.

Definition is_digit (c : N) : bool := (48 <=? c) && (c <=? 57).

(** The value of a hexadecimal digit, in either case. *)
Definition hex_value (c : N) : option N :=
  if (48 <=? c) && (c <=? 57) then Some (c - 48)
  else if (97 <=? c) && (c <=? 102) then Some (c - 87)
  else if (65 <=? c) && (c <=? 70) then Some (c - 55)
  else None.

Definition hex4 (a b c d : N) : option N :=
  match hex_value a, hex_value b, hex_value c, hex_value d with
  | Some x3, Some x2, Some x1, Some x0 => Some (((x3 * 16 + x2) * 16 + x1) * 16 + x0)
  | _, _, _, _ => None
  end.

(** The character a two-character escape stands for, by the character after
    the backslash: quote, backslash, slash, b, f, n, r, t. *)
Definition simple_escape (e : N) : option N :=
  if e =? 34 then Some 34
  else if e =? 92 then Some 92
  else if e =? 47 then Some 47
  else if e =? 98 then Some 8
  else if e =? 102 then Some 12
  else if e =? 110 then Some 10
  else if e =? 114 then Some 13
  else if e =? 116 then Some 9
  else None.

Definition is_high_surrogate (n : N) : bool := (55296 <=? n) && (n <=? 56319).
Definition is_low_surrogate (n : N) : bool := (56320 <=? n) && (n <=? 57343).

(** A Unicode scalar value: a code point that is not a surrogate. *)
Definition scalar (c : N) : bool :=
  (c <=? 1114111) && negb (is_high_surrogate c) && negb (is_low_surrogate c).

(** A character that may stand for itself inside a string: anything from
    U+0020 on except the quote and the backslash. *)
Definition unescaped (c : N) : bool :=
  (32 <=? c) && (c <=? 1114111) && negb (c =? 34) && negb (c =? 92).

(** [json_chars body s]: the characters between the quotes of a JSON string
    denote the string [s].  A [\uXXXX] escape denotes its code point; an
    escaped high surrogate followed by an escaped low surrogate denotes the
    character they encode together. *)
Inductive json_chars : str → str → Prop :=
  | chars_end : json_chars [] []
  | chars_unescaped c body s :
      unescaped c = true → json_chars body s → json_chars (c :: body) (c :: s)
  | chars_escape e c body s :
      simple_escape e = Some c → json_chars body s →
      json_chars (92 :: e :: body) (c :: s)
  | chars_u h3 h2 h1 h0 n body s :
      hex4 h3 h2 h1 h0 = Some n →
      is_high_surrogate n = false → is_low_surrogate n = false →
      json_chars body s →
      json_chars (92 :: 117 :: h3 :: h2 :: h1 :: h0 :: body) (n :: s)
  | chars_pair h3 h2 h1 h0 l3 l2 l1 l0 hi lo body s :
      hex4 h3 h2 h1 h0 = Some hi → is_high_surrogate hi = true →
      hex4 l3 l2 l1 l0 = Some lo → is_low_surrogate lo = true →
      json_chars body s →
      json_chars (92 :: 117 :: h3 :: h2 :: h1 :: h0 ::
                  92 :: 117 :: l3 :: l2 :: l1 :: l0 :: body)
                 ((65536 + (hi - 55296) * 1024 + (lo - 56320)) :: s).

(** The number a run of decimal digits denotes. *)
Definition decimal_from (acc : N) (digits : str) : N :=
  foldl (λ acc c, acc * 10 + (c - 48)) acc digits.

Definition decimal (digits : str) : N := decimal_from 0 digits.

(** The integer part of a number: a single zero, or digits that do not start
    with zero. *)
Inductive json_nat : str → N → Prop :=
  | nat_zero : json_nat [48] 0
  | nat_digits d ds :
      is_digit d = true → d ≠ 48 → forallb is_digit ds = true →
      json_nat (d :: ds) (decimal (d :: ds)).

(** An integer: an optional minus sign and the integer part. *)
Inductive json_int : str → Z → Prop :=
  | int_plain t n : json_nat t n → json_int t (Z.of_N n)
  | int_minus t n : json_nat t n → json_int (45 :: t) (- Z.of_N n).

(** Items separated by commas, with whitespace allowed around each item;
    no item at all is whitespace only. *)
Inductive separated {A} (item : str → A → Prop) : str → list A → Prop :=
  | separated_none w : ws w → separated item w []
  | separated_last w1 t w2 x :
      ws w1 → item t x → ws w2 → separated item (w1 ++ t ++ w2) [x]
  | separated_more w1 t w2 x rest l :
      ws w1 → item t x → ws w2 → separated item rest l → l ≠ [] →
      separated item (w1 ++ t ++ w2 ++ 44 :: rest) (x :: l).

(** [json_value t v]: the text [t] is a JSON value and denotes [v]: a
    literal name, a number, a string between quotes, an array between
    brackets, or an object between braces whose members are a string, a
    colon and a value. *)
Inductive json_value : str → pyval → Prop :=
  | value_null : json_value (py "null") PyNone
  | value_true : json_value (py "true") (PyBool true)
  | value_false : json_value (py "false") (PyBool false)
  | value_number t z : json_int t z → json_value t (PyInt z)
  | value_string body s :
      json_chars body s → json_value (34 :: body ++ [34]) (PyStr s)
  | value_array t l :
      separated json_value t l → json_value (91 :: t ++ [93]) (PyList l)
  | value_object t d :
      separated json_member t d → json_value (123 :: t ++ [125]) (PyDict d)
with json_member : str → str * pyval → Prop :=
  | member_pair kbody k w1 w2 t v :
      json_chars kbody k → ws w1 → ws w2 → json_value t v →
      json_member (34 :: kbody ++ 34 :: w1 ++ 58 :: w2 ++ t) (k, v).

(** The strings of a value, keys included, are made of Unicode scalar
    values. *)
Fixpoint scalar_value (v : pyval) : bool :=
  match v with
  | PyStr s => forallb scalar s
  | PyList l => forallb scalar_value l
  | PyDict d => forallb (λ kv, forallb scalar kv.1 && scalar_value kv.2) d
  | _ => true
  end.

(** * Properties *)

(** The model reproduces the run recorded in the notebook, down to the
    escaped content of the tool message. *)
Example notebook_run : run graph [] 10 (START, inputs) = Ok (END, recorded_final).
Proof. vm_compute. reflexivity. Qed.

Example json_dumps_nested :
  json_dumps (PyDict [(py "a", PyList [PyInt (-12); PyBool true; PyNone]);
                      (py "b", PyStr [233; 10])])
  = Ok (py "{" ++ [QUOTE] ++ py "a" ++ [QUOTE] ++ py ": [-12, true, null], "
        ++ [QUOTE] ++ py "b" ++ [QUOTE] ++ py ": " ++
        [QUOTE] ++ py "\u00e9\n" ++ [QUOTE] ++ py "}").
Proof. vm_compute. reflexivity. Qed.

(** ** Final message *)

Lemma Ok_inj {A} (a b : A) : Ok a = Ok b → a = b.
Proof. by intros [= ->]. Qed.

Lemma last_item_snoc {A} (l : list A) (x : A) : last_item (l ++ [x]) = Ok x.
Proof. unfold last_item. by rewrite last_snoc. Qed.

Lemma last_item_Ok {A} (l : list A) (x : A) :
  last_item l = Ok x ↔ ∃ pre, l = pre ++ [x].
Proof.
  unfold last_item. split.
  - destruct (last l) as [y|] eqn:E; [|done].
    intros [= ->]. by apply last_Some.
  - intros [pre ->]. by rewrite last_snoc.
Qed.

Lemma last_item_same {A} (l1 l2 : list A) :
  last l1 = last l2 → last_item l1 = last_item l2.
Proof. unfold last_item. by intros ->. Qed.

Lemma tool_calls_Ok (m : BaseMessage) (calls : list ToolCall.t) :
  tool_calls m = Ok calls ↔ ∃ ai, m = AIMessage ai ∧ ai_tool_calls ai = calls.
Proof.
  split.
  - destruct m; simpl; try done. intros [= <-]. eauto.
  - by intros (ai & -> & <-).
Qed.

(** ** The continuation predicate *)

Lemma should_continue_snoc (pre : list BaseMessage) (m : BaseMessage) :
  should_continue (State (pre ++ [m])) =
  calls ← tool_calls m;
  if negb (truthy calls) then Ok (py "end") else Ok (py "continue").
Proof. unfold should_continue. simpl. by rewrite last_item_snoc. Qed.

Lemma should_continue_inv (state : AgentState) (label : str) :
  should_continue state = Ok label →
  ∃ pre ai, messages state = pre ++ [AIMessage ai] ∧
    label = if negb (truthy (ai_tool_calls ai)) then py "end" else py "continue".
Proof.
  unfold should_continue. simpl.
  destruct (last_item (messages state)) as [m|] eqn:Hlast; [|done].
  apply last_item_Ok in Hlast as [pre Hpre]. simpl.
  destruct (tool_calls m) as [calls|] eqn:Hcalls; [|done].
  apply tool_calls_Ok in Hcalls as (ai & -> & <-). simpl.
  intros Hlabel. exists pre, ai. split; [done|].
  by destruct (truthy (ai_tool_calls ai)); simpl in *; injection Hlabel.
Qed.

Lemma labels_differ : py "end" ≠ py "continue".
Proof. discriminate. Qed.

(** The empty state: [messages[-1]] raises. *)
Example should_continue_empty : should_continue (State []) = Raise IndexError.
Proof. reflexivity. Qed.

(** A final message of a class without [tool_calls]: the attribute access
    raises. *)
Example should_continue_human :
  should_continue inputs = Raise (AttributeError (py "tool_calls")).
Proof. reflexivity. Qed.

(** C1, as stated, fails on the state the notebook starts from, a single
    human-authored message: its final message is not a model-authored message
    with tool calls, and the predicate does not return "end": the access to
    [tool_calls] raises [AttributeError]. *)
Lemma should_continue_human_refuted :
  ¬ ((should_continue inputs = Ok (py "continue") ↔ final_has_tool_calls inputs) ∧
     (¬ final_has_tool_calls inputs → should_continue inputs = Ok (py "end"))).
Proof.
  intros [_ Hend].
  assert (Hnot : ¬ final_has_tool_calls inputs).
  { intros (pre & ai & Heq & _). unfold inputs in Heq. simpl in Heq.
    destruct pre as [|m [|m' pre]]; discriminate Heq. }
  specialize (Hend Hnot). rewrite should_continue_human in Hend.
  discriminate Hend.
Qed.

(** C1 (amended): [should_continue] returns "continue" exactly when the
    final message is model-authored and carries one or more tool calls, and
    "end" exactly when the final message is model-authored and carries none.
    It raises [AttributeError] for [tool_calls] exactly when there is a
    final message that is not model-authored, and [IndexError] exactly when
    there is no message.  These four outcomes are the only ones. *)
Theorem should_continue_label (state : AgentState) :
  (should_continue state = Ok (py "continue") ↔ final_has_tool_calls state) ∧
  (should_continue state = Ok (py "end") ↔ final_has_no_tool_call state) ∧
  (should_continue state = Raise (AttributeError (py "tool_calls")) ↔
   ∃ pre m, messages state = pre ++ [m] ∧ ∀ ai, m ≠ AIMessage ai) ∧
  (should_continue state = Raise IndexError ↔ messages state = []) ∧
  (should_continue state = Ok (py "continue") ∨
   should_continue state = Ok (py "end") ∨
   should_continue state = Raise (AttributeError (py "tool_calls")) ∨
   should_continue state = Raise IndexError).
Proof.
  destruct state as [msgs]. unfold final_has_tool_calls, final_has_no_tool_call.
  simpl. destruct msgs as [|m0 msgs _] using rev_ind.
  - change (should_continue (State [])) with (@Raise str IndexError).
    repeat split; try done; auto.
    + by intros (pre & ai & Heq & _); destruct pre.
    + by intros (pre & ai & Heq & _); destruct pre.
    + by intros (pre & m & Heq & _); destruct pre.
  - rename msgs into pre0. rewrite should_continue_snoc.
    assert (Hsnoc : ∀ pre m, pre0 ++ [m0] = pre ++ [m] → m = m0).
    { intros pre m Heq. by apply app_inj_tail in Heq as [_ ->]. }
    assert (Hne : pre0 ++ [m0] ≠ []) by (by destruct pre0).
    destruct m0 as [c|c|ai|c nm tid]; simpl.
    1,2,4: repeat split; try done; auto;
      try (by intros (pre & ai & Heq%Hsnoc & _));
      intros _; eexists pre0, _; (split; [done|]); done.
    destruct (ai_tool_calls ai) as [|tc calls] eqn:Hcalls; simpl.
    + repeat split; try done; auto.
      * by intros (pre & ai' & [= ->]%Hsnoc & Hn); rewrite Hcalls in Hn.
      * intros _. exists pre0, ai. by split.
      * intros (pre & m & ->%Hsnoc & Hm). by destruct (Hm ai).
    + repeat split; try done; auto.
      * intros _. exists pre0, ai. split; [done|]. by rewrite Hcalls.
      * by intros (pre & ai' & [= ->]%Hsnoc & Hn); rewrite Hcalls in Hn.
      * intros (pre & m & ->%Hsnoc & Hm). by destruct (Hm ai).
Qed.

(** C7: the label depends on the final message only: two states with the
    same final message (or both without one) get the same result. *)
Theorem should_continue_deterministic (state1 state2 : AgentState) :
  last (messages state1) = last (messages state2) →
  should_continue state1 = should_continue state2.
Proof.
  intros Hlast. unfold should_continue. simpl.
  by rewrite (last_item_same _ _ Hlast).
Qed.

Lemma should_continue_deterministic_witness :
  last (messages inputs ++ [AIMessage (AI [] [recorded_call])])
  = last [AIMessage (AI [] [recorded_call])] ∧
  should_continue (State (messages inputs ++ [AIMessage (AI [] [recorded_call])]))
  = should_continue (State [AIMessage (AI [] [recorded_call])]).
Proof.
  split; [reflexivity|].
  apply (should_continue_deterministic
           (State (messages inputs ++ [AIMessage (AI [] [recorded_call])]))
           (State [AIMessage (AI [] [recorded_call])])).
  reflexivity.
Defined.

(** ** The tool dispatch step *)

Section Dispatch.
Variable tools_by_name : gmap str Tool.t.

Lemma tool_node_loop_Ok (calls : list ToolCall.t) (outputs res : list BaseMessage) :
  tool_node_loop tools_by_name calls outputs = Ok res ↔
  ∃ new, res = outputs ++ new ∧ Forall2 (answered tools_by_name) calls new.
Proof.
  revert outputs. induction calls as [|tc calls IH]; intros outputs; simpl.
  - split.
    + intros [= <-]. exists []. by rewrite app_nil_r.
    + intros (new & -> & Hnew). apply Forall2_nil_inv_l in Hnew as ->.
      by rewrite app_nil_r.
  - split.
    + unfold getitem.
      destruct (tools_by_name !! ToolCall.name tc) as [t|] eqn:Ht; [|done].
      simpl. destruct (Tool.invoke t (ToolCall.args tc)) as [v|] eqn:Hv; [|done].
      simpl. destruct (json_dumps v) as [content|] eqn:Hc; [|done].
      simpl. intros (new & -> & Hnew)%IH.
      exists (ToolMessage content (ToolCall.name tc) (ToolCall.id tc) :: new).
      split; [by rewrite <- app_assoc|].
      constructor; [|done]. by exists t, v, content.
    + intros (new & -> & Hnew).
      apply Forall2_cons_inv_l in Hnew as (m & new' & Hm & Hnew' & ->).
      destruct Hm as (t & v & content & Hlook & Hinv & Hdump & ->).
      unfold getitem. rewrite Hlook. simpl. rewrite Hinv. simpl.
      rewrite Hdump. simpl. apply IH. exists new'.
      split; [by rewrite <- app_assoc|done].
Qed.

Lemma tool_node_loop_app (before rest : list ToolCall.t)
    (outputs new : list BaseMessage) :
  Forall2 (answered tools_by_name) before new →
  tool_node_loop tools_by_name (before ++ rest) outputs
  = tool_node_loop tools_by_name rest (outputs ++ new).
Proof.
  intros Hnew. revert outputs.
  induction Hnew as [|tc m before new Hm _ IH]; intros outputs; simpl.
  - by rewrite app_nil_r.
  - destruct Hm as (t & v & content & Ht & Hv & Hc & ->).
    unfold getitem. rewrite Ht. simpl. rewrite Hv. simpl. rewrite Hc. simpl.
    rewrite IH. by rewrite <- app_assoc.
Qed.

Lemma tool_node_snoc (pre : list BaseMessage) (m : BaseMessage) :
  tool_node tools_by_name (State (pre ++ [m])) =
  calls ← tool_calls m;
  outputs ← tool_node_loop tools_by_name calls [];
  Ok (State outputs).
Proof. unfold tool_node. simpl. by rewrite last_item_snoc. Qed.

Lemma tool_node_Ok (state delta : AgentState) :
  tool_node tools_by_name state = Ok delta ↔
  ∃ pre ai, messages state = pre ++ [AIMessage ai] ∧
    Forall2 (answered tools_by_name) (ai_tool_calls ai) (messages delta).
Proof.
  destruct state as [msgs], delta as [outs]. simpl. split.
  - unfold tool_node. simpl.
    destruct (last_item msgs) as [m|] eqn:Hlast; [|done].
    apply last_item_Ok in Hlast as [pre ->]. simpl.
    destruct (tool_calls m) as [calls|] eqn:Hcalls; [|done].
    apply tool_calls_Ok in Hcalls as (ai & -> & <-). simpl.
    destruct (tool_node_loop _ _ _) as [res|] eqn:Hloop; [|done].
    simpl. intros [= <-].
    apply tool_node_loop_Ok in Hloop as (new & -> & Hnew). eauto.
  - intros (pre & ai & -> & Hnew). rewrite tool_node_snoc. simpl.
    assert (tool_node_loop tools_by_name (ai_tool_calls ai) [] = Ok outs) as ->;
      [|done].
    apply tool_node_loop_Ok. eauto.
Qed.
End Dispatch.

Lemma dispatchable_answered (tools_by_name : gmap str Tool.t) (calls : list ToolCall.t) :
  Forall (dispatchable tools_by_name) calls →
  ∃ new, Forall2 (answered tools_by_name) calls new.
Proof.
  induction 1 as [|tc calls (t & v & content & Ht & Hv & Hc) _ [new IH]].
  - exists []. constructor.
  - exists (ToolMessage content (ToolCall.name tc) (ToolCall.id tc) :: new).
    constructor; [|done]. by exists t, v, content.
Qed.

Lemma answered_lookup (tools_by_name : gmap str Tool.t)
    (calls : list ToolCall.t) (new : list BaseMessage) (i : nat) (tc : ToolCall.t) :
  Forall2 (answered tools_by_name) calls new →
  calls !! i = Some tc →
  ∃ content,
    new !! i = Some (ToolMessage content (ToolCall.name tc) (ToolCall.id tc)).
Proof.
  intros Hnew Hi.
  destruct (Forall2_lookup_l _ _ _ _ _ Hnew Hi) as (m & Hm & Hans).
  destruct Hans as (t & v & content & _ & _ & _ & ->). eauto.
Qed.

(** A call to a tool that is not registered. *)
Example tool_node_unknown_name :
  tool_node notebook_registry
    (State (messages inputs ++ [AIMessage (AI [] [unregistered_call])]))
  = Raise (KeyError (py "search")).
Proof. reflexivity. Qed.

(** C2, as stated, fails on a state whose final message is model-authored
    and carries one tool call, to a name that is not registered: the step
    raises [KeyError] and returns no delta. *)
Lemma tool_node_results_refuted :
  ¬ (∀ pre ai,
       ai_tool_calls ai ≠ [] →
       ∃ outputs,
         tool_node notebook_registry (State (pre ++ [AIMessage ai]))
         = Ok (State outputs) ∧
         length outputs = length (ai_tool_calls ai)).
Proof.
  intros H.
  destruct (H (messages inputs) (AI [] [unregistered_call])) as (outputs & Hret & _);
    [done|].
  rewrite tool_node_unknown_name in Hret. discriminate Hret.
Qed.

(** C2 (amended): for every state whose final message is model-authored and
    carries tool calls c1..cn, each naming a registered tool whose
    invocation returns a serializable value, [tool_node] returns a delta of
    exactly n tool-result messages, in the order of the calls, the i-th
    carrying the name and the identifier of ci; appending the delta leaves
    every message already in the state in place. *)
Theorem tool_node_results (tools_by_name : gmap str Tool.t)
    (pre : list BaseMessage) (ai : ai_message) :
  Forall (dispatchable tools_by_name) (ai_tool_calls ai) →
  ∃ outputs,
    tool_node tools_by_name (State (pre ++ [AIMessage ai])) = Ok (State outputs) ∧
    length outputs = length (ai_tool_calls ai) ∧
    (∀ i tc, ai_tool_calls ai !! i = Some tc →
       ∃ content,
         outputs !! i
         = Some (ToolMessage content (ToolCall.name tc) (ToolCall.id tc))) ∧
    (∀ i m, (pre ++ [AIMessage ai]) !! i = Some m →
       messages (update_state (State (pre ++ [AIMessage ai])) (State outputs)) !! i
       = Some m).
Proof.
  intros Hok. destruct (dispatchable_answered _ _ Hok) as [outputs Hnew].
  exists outputs. split; [|split; [|split]].
  - apply tool_node_Ok. exists pre, ai. by split.
  - symmetry. by eapply Forall2_length.
  - intros i tc Hi. by eapply answered_lookup.
  - intros i m Hi. simpl. unfold add_messages. by apply lookup_app_l_Some.
Qed.

Lemma tool_node_results_witness :
  Forall (dispatchable notebook_registry) [recorded_call; recorded_call] ∧
  ∃ outputs,
    tool_node notebook_registry
      (State (messages inputs ++ [AIMessage (AI [] [recorded_call; recorded_call])]))
    = Ok (State outputs) ∧
    length outputs = 2%nat.
Proof.
  assert (Hok : Forall (dispatchable notebook_registry)
                  (ai_tool_calls (AI [] [recorded_call; recorded_call]))).
  { repeat constructor;
      by exists (tool (py "get_weather") (py "location") (get_weather ascii_lower)),
                (PyStr sunny), (encode_basestring_ascii sunny). }
  split; [exact Hok|].
  destruct (tool_node_results notebook_registry (messages inputs)
              (AI [] [recorded_call; recorded_call]) Hok)
    as (outputs & Hret & Hlen & _).
  exists outputs. by split.
Defined.

(** C9: on a state whose final message is model-authored and carries an
    empty list of tool calls, [tool_node] returns the delta with no message. *)
Theorem tool_node_no_calls (tools_by_name : gmap str Tool.t)
    (pre : list BaseMessage) (content : str) :
  tool_node tools_by_name (State (pre ++ [AIMessage (AI content [])])) = Ok (State []).
Proof. by rewrite tool_node_snoc. Qed.

(** ** Serialized content *)

Lemma escape_char_length (c : N) : (1 ≤ length (escape_char c))%nat.
Proof. unfold escape_char. repeat case_match; simpl; lia. Qed.

Lemma escaped_length (s : str) : (length s ≤ length (flat_map escape_char s))%nat.
Proof.
  induction s as [|c s IH]; simpl; [lia|].
  rewrite length_app. pose proof (escape_char_length c). lia.
Qed.

Lemma encode_basestring_ascii_length (s : str) :
  (length s + 2 ≤ length (encode_basestring_ascii s))%nat.
Proof.
  unfold encode_basestring_ascii. rewrite !length_app. simpl.
  pose proof (escaped_length s). lia.
Qed.

Lemma encode_basestring_ascii_neq (s : str) : encode_basestring_ascii s ≠ s.
Proof.
  intros Heq. pose proof (encode_basestring_ascii_length s) as Hlen.
  rewrite Heq in Hlen. lia.
Qed.

Lemma hex_digit_printable (d : N) : d < 16 → 32 ≤ hex_digit d ≤ 126.
Proof. unfold hex_digit. intros Hd. case_match; lia. Qed.

Lemma nibble_lt (n : N) : N.land n 15 < 16.
Proof.
  change 15 with (N.ones 4). rewrite N.land_ones.
  apply N.mod_lt. discriminate.
Qed.

Lemma u_escape_printable (n : N) : Forall (λ c, 32 ≤ c ≤ 126) (u_escape n).
Proof.
  unfold u_escape, BACKSLASH.
  repeat constructor; try lia; apply hex_digit_printable, nibble_lt.
Qed.

(** The serialized string is plain printable ASCII, whatever the value holds. *)
Lemma encode_basestring_ascii_printable (s : str) :
  Forall (λ c, 32 ≤ c ≤ 126) (encode_basestring_ascii s).
Proof.
  unfold encode_basestring_ascii, QUOTE.
  apply Forall_app. split; [repeat constructor; lia|].
  apply Forall_app. split; [|repeat constructor; lia].
  apply Forall_flat_map, Forall_forall. intros c _.
  unfold escape_char.
  repeat (destruct (c =? _); [unfold BACKSLASH, QUOTE; repeat constructor; lia|]).
  destruct ((32 <=? c) && (c <=? 126)) eqn:Hrange.
  { apply andb_prop in Hrange as [Hlo%N.leb_le Hhi%N.leb_le].
    repeat constructor; lia. }
  destruct (c <? 65536); [apply u_escape_printable|].
  apply Forall_app. split; apply u_escape_printable.
Qed.

(** *** The serialized text is JSON for the value *)

Lemma hex_value_digit (d : N) : d < 16 → hex_value (hex_digit d) = Some d.
Proof.
  intros Hd. unfold hex_value, hex_digit.
  destruct (d <? 10) eqn:H10.
  - apply N.ltb_lt in H10.
    assert ((48 <=? 48 + d) && (48 + d <=? 57) = true) as ->.
    { apply andb_true_iff. split; apply N.leb_le; lia. }
    f_equal. lia.
  - apply N.ltb_ge in H10.
    assert ((48 <=? 87 + d) && (87 + d <=? 57) = false) as ->.
    { apply andb_false_iff. right. apply N.leb_gt. lia. }
    assert ((97 <=? 87 + d) && (87 + d <=? 102) = true) as ->.
    { apply andb_true_iff. split; apply N.leb_le; lia. }
    f_equal. lia.
Qed.

Lemma nibble (n : N) (k : N) : N.land (N.shiftr n k) 15 = (n / 2 ^ k) mod 16.
Proof.
  change 15 with (N.ones 4). by rewrite N.land_ones, N.shiftr_div_pow2.
Qed.

Lemma hex4_u_escape (n : N) (body : str) :
  n < 65536 →
  ∃ h3 h2 h1 h0,
    u_escape n ++ body = 92 :: 117 :: h3 :: h2 :: h1 :: h0 :: body ∧
    hex4 h3 h2 h1 h0 = Some n.
Proof.
  intros Hn. unfold u_escape. do 4 eexists. split; [reflexivity|].
  unfold hex4. rewrite !hex_value_digit by apply nibble_lt.
  f_equal. rewrite <- (N.shiftr_0_r n) at 4. rewrite !nibble.
  change (2 ^ 12) with 4096. change (2 ^ 8) with 256. change (2 ^ 4) with 16.
  change (2 ^ 0) with 1. rewrite N.div_1_r.
  assert (H3 : n / 4096 < 16) by (apply N.Div0.div_lt_upper_bound; lia).
  rewrite (N.mod_small (n / 4096) 16) by done.
  pose proof (N.Div0.div_mod (n / 256) 16) as E2.
  pose proof (N.Div0.div_mod (n / 16) 16) as E1.
  pose proof (N.Div0.div_mod n 16) as E0.
  rewrite N.Div0.div_div in E2, E1. cbn in E2, E1.
  change (256 * 16) with 4096 in E2. change (16 * 16) with 256 in E1.
  lia.
Qed.

Lemma lor_add (a b : N) : N.land a b = 0 → N.lor a b = a + b.
Proof.
  intros H. rewrite <- (N.lxor_lor a b H). symmetry. by apply N.add_nocarry_lxor.
Qed.

Lemma surrogate_halves (n : N) :
  n < 1048576 →
  N.lor 55296 (N.land (N.shiftr n 10) 1023) = 55296 + n / 1024 ∧
  N.lor 56320 (N.land n 1023) = 56320 + n mod 1024 ∧
  n / 1024 < 1024 ∧ n mod 1024 < 1024 ∧
  n = 1024 * (n / 1024) + n mod 1024.
Proof.
  intros Hn.
  assert (Hdiv : n / 1024 < 1024) by (apply N.Div0.div_lt_upper_bound; lia).
  split; [|split; [|split; [|split]]].
  - rewrite lor_add.
    + f_equal. change 1023 with (N.ones 10).
      rewrite N.land_ones, N.shiftr_div_pow2. change (2 ^ 10) with 1024.
      by apply N.mod_small.
    + by rewrite (N.land_comm (N.shiftr n 10)), N.land_assoc.
  - rewrite lor_add.
    + f_equal. change 1023 with (N.ones 10). by rewrite N.land_ones.
    + by rewrite (N.land_comm n), N.land_assoc.
  - done.
  - by apply N.mod_lt.
  - apply N.Div0.div_mod.
Qed.

Lemma surrogate_pair (c : N) :
  65536 ≤ c → c ≤ 1114111 →
  let n := c - 65536 in
  let hi := N.lor 55296 (N.land (N.shiftr n 10) 1023) in
  let lo := N.lor 56320 (N.land n 1023) in
  is_high_surrogate hi = true ∧ is_low_surrogate lo = true ∧
  65536 + (hi - 55296) * 1024 + (lo - 56320) = c.
Proof.
  intros Hlo Hhi. cbn zeta.
  assert (Hn : c - 65536 < 1048576) by lia.
  assert (Hc : c = (c - 65536) + 65536) by lia.
  revert Hn Hc. generalize (c - 65536). intros n Hn Hc.
  destruct (surrogate_halves n Hn) as (-> & -> & H1 & H2 & H3).
  revert H1 H2 H3. generalize (n / 1024) (n mod 1024). intros q r H1 H2 H3.
  unfold is_high_surrogate, is_low_surrogate. split; [|split].
  - apply andb_true_iff. split; apply N.leb_le; lia.
  - apply andb_true_iff. split; apply N.leb_le; lia.
  - lia.
Qed.

Lemma json_chars_escape_char (c : N) (body s : str) :
  scalar c = true → json_chars body s → json_chars (escape_char c ++ body) (c :: s).
Proof.
  intros Hc Hbody. unfold escape_char, BACKSLASH, QUOTE.
  destruct (c =? 92) eqn:E; [apply N.eqb_eq in E as ->; by apply chars_escape|].
  destruct (c =? 34) eqn:E1; [apply N.eqb_eq in E1 as ->; by apply chars_escape|].
  destruct (c =? 8) eqn:E2; [apply N.eqb_eq in E2 as ->; by apply chars_escape|].
  destruct (c =? 12) eqn:E3; [apply N.eqb_eq in E3 as ->; by apply chars_escape|].
  destruct (c =? 10) eqn:E4; [apply N.eqb_eq in E4 as ->; by apply chars_escape|].
  destruct (c =? 13) eqn:E5; [apply N.eqb_eq in E5 as ->; by apply chars_escape|].
  destruct (c =? 9) eqn:E6; [apply N.eqb_eq in E6 as ->; by apply chars_escape|].
  unfold scalar in Hc.
  apply andb_true_iff in Hc as [[Hmax%N.leb_le Hhigh%negb_true_iff]%andb_true_iff
                                 Hlow%negb_true_iff].
  destruct ((32 <=? c) && (c <=? 126)) eqn:Hrange.
  { apply andb_true_iff in Hrange as [H32 _]. cbn. apply chars_unescaped; [|done].
    assert (Hm : (c <=? 1114111) = true) by (by apply N.leb_le).
    unfold unescaped. by rewrite H32, Hm, E, E1. }
  destruct (c <? 65536) eqn:Hbmp.
  - apply N.ltb_lt in Hbmp.
    destruct (hex4_u_escape c body Hbmp) as (h3 & h2 & h1 & h0 & -> & Hhex).
    by apply chars_u.
  - apply N.ltb_ge in Hbmp. cbn zeta.
    destruct (surrogate_pair c Hbmp Hmax) as (Hhi & Hlo & Hval).
    set (hi := N.lor 55296 _) in *. set (lo := N.lor 56320 _) in *.
    assert (Hhi' : hi < 65536).
    { unfold is_high_surrogate in Hhi.
      apply andb_true_iff in Hhi as [_ ?%N.leb_le]. lia. }
    assert (Hlo' : lo < 65536).
    { unfold is_low_surrogate in Hlo.
      apply andb_true_iff in Hlo as [_ ?%N.leb_le]. lia. }
    rewrite <- app_assoc.
    destruct (hex4_u_escape lo body Hlo') as (l3 & l2 & l1 & l0 & -> & Hhexl).
    destruct (hex4_u_escape hi (92 :: 117 :: l3 :: l2 :: l1 :: l0 :: body) Hhi')
      as (h3 & h2 & h1 & h0 & -> & Hhexh).
    rewrite <- Hval. by eapply chars_pair.
Qed.

Lemma json_chars_escaped (s : str) :
  forallb scalar s = true → json_chars (flat_map escape_char s) s.
Proof.
  induction s as [|c s IH]; cbn; [constructor|].
  intros [Hc Hs]%andb_true_iff. apply json_chars_escape_char; auto.
Qed.

(** The body determines the string. *)
Lemma json_chars_functional (body s1 s2 : str) :
  json_chars body s1 → json_chars body s2 → s1 = s2.
Proof.
  intros H1. revert s2.
  induction H1 as [|c body s Hc _ IH|e c body s He _ IH
                   |h3 h2 h1 h0 n body s Hn Hh Hl _ IH
                   |h3 h2 h1 h0 l3 l2 l1 l0 hi lo body s Hhi Hh Hlo Hl _ IH];
    intros s2 H2; inversion H2; subst;
    try discriminate; try congruence; try done;
    f_equal; try congruence; auto.
Qed.

Lemma py_String (c : ascii) (s : string) : py (String c s) = N_of_ascii c :: py s.
Proof. reflexivity. Qed.

Lemma uint_digits (d : Decimal.uint) :
  forallb is_digit (py (NilEmpty.string_of_uint d)) = true.
Proof. induction d; cbn [NilEmpty.string_of_uint]; rewrite ?py_String; cbn; done. Qed.

Lemma uint_decimal_from (d : Decimal.uint) (acc : positive) :
  decimal_from (Npos acc) (py (NilEmpty.string_of_uint d))
  = Npos (Pos.of_uint_acc d acc).
Proof.
  revert acc. unfold decimal_from.
  induction d as [|d IH|d IH|d IH|d IH|d IH|d IH|d IH|d IH|d IH|d IH];
    intros acc; cbn [NilEmpty.string_of_uint Pos.of_uint_acc];
    rewrite ?py_String; [done|..];
    cbn [foldl];
    (etransitivity; [|apply IH]); f_equal; cbn [N_of_ascii]; cbn; lia.
Qed.

Lemma uint_decimal (d : Decimal.uint) :
  decimal (py (NilEmpty.string_of_uint d)) = Pos.of_uint d.
Proof.
  unfold decimal.
  induction d as [|d IH|d IH|d IH|d IH|d IH|d IH|d IH|d IH|d IH|d IH];
    cbn [NilEmpty.string_of_uint Pos.of_uint]; rewrite ?py_String; [done|exact IH|..];
    unfold decimal_from; cbn [foldl];
    (etransitivity; [|apply uint_decimal_from]); done.
Qed.

Lemma to_uint_head (p : positive) :
  ∃ c cs, py (NilZero.string_of_uint (Pos.to_uint p)) = c :: cs ∧
          is_digit c = true ∧ c ≠ 48 ∧ forallb is_digit cs = true.
Proof.
  pose proof (uint_digits (Pos.to_uint p)) as Hdigits.
  assert (Hnorm : Pos.to_uint p = Decimal.nzhead (Pos.to_uint p)).
  { pose proof (DecimalPos.Unsigned.to_of (Pos.to_uint p)) as H.
    rewrite DecimalPos.Unsigned.of_to in H. cbn [N.to_uint] in H.
    rewrite H at 1. apply DecimalFacts.unorm_nzhead.
    intros Hnil. apply DecimalFacts.unorm_0 in Hnil. rewrite Hnil in H.
    by apply DecimalPos.Unsigned.to_uint_nonzero in H. }
  pose proof (DecimalFacts.nzhead_nonzero (Pos.to_uint p)) as Hnz.
  pose proof (DecimalPos.Unsigned.to_uint_nonnil p) as Hnil.
  rewrite <- Hnorm in Hnz. unfold NilZero.string_of_uint.
  destruct (Pos.to_uint p) as [|d|d|d|d|d|d|d|d|d|d];
    [done|by destruct (Hnz d)|..];
    cbn [NilEmpty.string_of_uint] in *; rewrite py_String in *;
    apply andb_true_iff in Hdigits as [H1 H2];
    eexists _, _; (split; [reflexivity|]); (split; [done|]); (split; [|done]);
    discriminate.
Qed.

Lemma uint_decimal_zero (d : Decimal.uint) :
  decimal (py (NilZero.string_of_uint d)) = Pos.of_uint d.
Proof.
  unfold NilZero.string_of_uint. destruct d; [done|..]; apply uint_decimal.
Qed.

Lemma json_nat_to_uint (p : positive) :
  json_nat (py (NilZero.string_of_uint (Pos.to_uint p))) (Npos p).
Proof.
  destruct (to_uint_head p) as (c & cs & Heq & Hc & Hne & Hcs).
  pose proof (uint_decimal_zero (Pos.to_uint p)) as Hval.
  rewrite DecimalPos.Unsigned.of_to in Hval.
  rewrite Heq in *. rewrite <- Hval. by constructor.
Qed.

Lemma json_int_str_of_int (z : Z) : json_int (str_of_int z) z.
Proof.
  unfold str_of_int. destruct z as [|p|p]; cbn [Z.to_int].
  - apply (int_plain [48] 0). constructor.
  - cbn [NilZero.string_of_int].
    apply (int_plain _ (Npos p)), json_nat_to_uint.
  - cbn [NilZero.string_of_int]. rewrite py_String.
    apply (int_minus _ (Npos p)), json_nat_to_uint.
Qed.

Lemma separated_space {A} (item : str → A → Prop) (t : str) (l : list A) :
  separated item t l → separated item (32 :: t) l.
Proof.
  intros [w Hw|w1 t' w2 x Hw1 Hx Hw2|w1 t' w2 x rest l' Hw1 Hx Hw2 Hrest Hl].
  - by apply separated_none.
  - by apply (separated_last item (32 :: w1)).
  - by apply (separated_more item (32 :: w1)).
Qed.

Lemma separated_join {A} (item : str → A → Prop) (items : list str) (l : list A) :
  Forall2 item items l → separated item (join (py ", ") items) l.
Proof.
  induction 1 as [|t x items l Hx Hrest IH]; [by apply separated_none|].
  destruct Hrest as [|t' x' items l Hx' Hrest].
  - cbn. rewrite <- (app_nil_r t). by apply (separated_last item []).
  - change (join (py ", ") (t :: t' :: items))
      with ([] ++ t ++ [] ++ 44 :: 32 :: join (py ", ") (t' :: items)).
    apply separated_more; try done. by apply separated_space.
Qed.

Lemma json_value_dumps : ∀ (v : pyval) (out : str),
  scalar_value v = true → json_dumps v = Ok out → json_value out v.
Proof.
  fix IH 1. intros v out. destruct v as [|[|]|z|s|l|d|r]; cbn.
  - intros _ <-%Ok_inj. constructor.
  - intros _ <-%Ok_inj. constructor.
  - intros _ <-%Ok_inj. constructor.
  - intros _ <-%Ok_inj. constructor. apply json_int_str_of_int.
  - intros Hs <-%Ok_inj. apply value_string. by apply json_chars_escaped.
  - match goal with |- context [mbind _ (?f l)] => set (dump := f) end.
    intros Hwf.
    assert (Hitems : ∀ items, dump l = Ok items → Forall2 json_value items l).
    { induction l as [|x l IHl]; cbn.
      - intros items <-%Ok_inj. constructor.
      - apply andb_true_iff in Hwf as [Hx Hl].
        intros items. destruct (json_dumps x) as [sx|] eqn:Ex; [|done]. cbn.
        destruct (dump l) as [ss|] eqn:El; [|done]. cbn. intros <-%Ok_inj.
        constructor; [by apply (IH x)|by apply IHl]. }
    destruct (dump l) as [items|]; [|done]. cbn. intros <-%Ok_inj.
    apply (value_array (join (py ", ") items)). by apply separated_join, Hitems.
  - match goal with |- context [mbind _ (?f d)] => set (dump := f) end.
    intros Hwf.
    assert (Hitems : ∀ items, dump d = Ok items → Forall2 json_member items d).
    { induction d as [|[k x] d IHd]; cbn.
      - intros items <-%Ok_inj. constructor.
      - apply andb_true_iff in Hwf as [[Hk Hx]%andb_true_iff Hd].
        intros items. destruct (json_dumps x) as [sx|] eqn:Ex; [|done]. cbn.
        destruct (dump d) as [ss|] eqn:Ed; [|done]. cbn. intros <-%Ok_inj.
        constructor; [|by apply IHd].
        change (json_member (34 :: flat_map escape_char k ++ 34 :: [] ++ 58 :: [32] ++ sx)
                  (k, x)) || (rewrite <- app_assoc).
        apply member_pair; [by apply json_chars_escaped|done|done|by apply (IH x)]. }
    destruct (dump d) as [items|]; [|done]. cbn. intros <-%Ok_inj.
    apply (value_object (join (py ", ") items)). by apply separated_join, Hitems.
  - done.
Qed.

(** What the recorded tool message holds is a JSON string for the tool's
    answer. *)
Example recorded_output_is_json : json_value recorded_tool_output (PyStr sunny).
Proof. by apply json_value_dumps. Qed.

(** A quote or a backslash left as it is does not make a string body. *)
Example raw_quote_is_not_json (s : str) : ¬ json_chars [97; 34; 98; 92; 99] s.
Proof.
  intros H. inversion H as [|? ? ? _ H1| | |]; subst.
  inversion H1 as [|? ? ? Hquote _| | |]; subst. discriminate Hquote.
Qed.

(** C10: the content of every tool-result message [tool_node] returns is
    [json.dumps] of the value the tool returned for the corresponding call,
    and it is a JSON text that denotes that value, by the grammar of JSON
    (for values whose strings are Unicode scalar values).  When the value is
    a string, the content is a quote, a body and a quote, the body denotes
    that string and no other, and the content differs from the raw
    string. *)
Theorem tool_message_content_is_json (tools_by_name : gmap str Tool.t)
    (state delta : AgentState) :
  tool_node tools_by_name state = Ok delta →
  ∃ pre ai,
    messages state = pre ++ [AIMessage ai] ∧
    Forall2 (λ tc m,
      ∃ t v,
        tools_by_name !! ToolCall.name tc = Some t ∧
        Tool.invoke t (ToolCall.args tc) = Ok v ∧
        is_tool_message m = true ∧
        json_dumps v = Ok (content_of m) ∧
        (scalar_value v = true → json_value (content_of m) v) ∧
        ∀ s, v = PyStr s →
          content_of m = [QUOTE] ++ flat_map escape_char s ++ [QUOTE] ∧
          content_of m ≠ s ∧
          ∃ body,
            content_of m = QUOTE :: body ++ [QUOTE] ∧
            (forallb scalar s = true →
             json_chars body s ∧ ∀ s', json_chars body s' → s' = s))
      (ai_tool_calls ai) (messages delta).
Proof.
  intros (pre & ai & Hstate & Hnew)%tool_node_Ok.
  exists pre, ai. split; [done|].
  eapply Forall2_impl; [exact Hnew|].
  intros tc m (t & v & content & Ht & Hv & Hc & ->). cbn.
  exists t, v. do 4 (split; [done|]). split.
  - intros Hscalar. by apply json_value_dumps.
  - intros s ->. cbn in Hc. apply Ok_inj in Hc as <-.
    split; [done|]. split; [apply encode_basestring_ascii_neq|].
    exists (flat_map escape_char s). split; [done|].
    intros Hscalar. pose proof (json_chars_escaped s Hscalar) as Hbody.
    split; [done|]. intros s' Hs'. by apply (json_chars_functional _ _ _ Hs' Hbody).
Qed.

Lemma tool_message_content_is_json_witness :
  tool_node notebook_registry
    (State (messages inputs ++ [AIMessage (AI [] [recorded_call])]))
  = Ok (State [ToolMessage recorded_tool_output (py "get_weather")
                 (py "call_azW0cQ4XjWWj0IAkWAxq9nLB")]) ∧
  ∃ pre ai,
    messages inputs ++ [AIMessage (AI [] [recorded_call])] = pre ++ [AIMessage ai] ∧
    Forall2 (λ tc m,
      ∃ t v,
        notebook_registry !! ToolCall.name tc = Some t ∧
        Tool.invoke t (ToolCall.args tc) = Ok v ∧
        is_tool_message m = true ∧
        json_dumps v = Ok (content_of m) ∧
        (scalar_value v = true → json_value (content_of m) v) ∧
        ∀ s, v = PyStr s →
          content_of m = [QUOTE] ++ flat_map escape_char s ++ [QUOTE] ∧
          content_of m ≠ s ∧
          ∃ body,
            content_of m = QUOTE :: body ++ [QUOTE] ∧
            (forallb scalar s = true →
             json_chars body s ∧ ∀ s', json_chars body s' → s' = s))
      (ai_tool_calls ai)
      [ToolMessage recorded_tool_output (py "get_weather")
         (py "call_azW0cQ4XjWWj0IAkWAxq9nLB")].
Proof.
  split; [reflexivity|].
  apply (tool_message_content_is_json notebook_registry
           (State (messages inputs ++ [AIMessage (AI [] [recorded_call])]))
           (State [ToolMessage recorded_tool_output (py "get_weather")
                     (py "call_azW0cQ4XjWWj0IAkWAxq9nLB")])).
  reflexivity.
Defined.

(** ** The weather tool *)

Lemma get_weather_returns (lower : str → str) (location : str) :
  ∃ s, get_weather lower location = Ok (PyStr s).
Proof. unfold get_weather. case_match; eauto. Qed.

Lemma by_name_tools (lower : str → str) :
  by_name (tools lower) !! py "get_weather"
  = Some (tool (py "get_weather") (py "location") (get_weather lower)).
Proof. unfold by_name, tools. simpl. apply lookup_insert_eq. Qed.

(** The function of the persistence notebook raises on a city it does not
    know; through the tool object the argument is rejected before that. *)
Example mongodb_get_weather_unknown :
  Mongodb.get_weather (py "paris") = Raise (AssertionError (py "Unknown city")) ∧
  (∀ t, t ∈ Mongodb.tools →
        Tool.invoke t {[ py "city" := PyStr (py "paris") ]} = Raise ValidationError).
Proof.
  split; [reflexivity|]. intros t Ht. by apply list_elem_of_singleton in Ht as ->.
Qed.

(** C5: when neither registered city occurs in the lowered location,
    [get_weather] returns the string "I am not sure what the weather is in
    <location>" and raises nothing, and [tool_node], given a call of the
    tool with that location, returns the tool-result message holding that
    string serialized; [get_weather] does not raise on any location. *)
Theorem get_weather_unregistered (lower : str → str) (location : str) :
  Forall (λ city, str_in city (lower location) = false) cities →
  get_weather lower location
  = Ok (PyStr (py "I am not sure what the weather is in " ++ location)) ∧
  (∀ pre content call_id,
     tool_node (by_name (tools lower))
       (State (pre ++ [AIMessage (AI content
          [ToolCall.mk (py "get_weather") {[ py "location" := PyStr location ]}
                       call_id])]))
     = Ok (State [ToolMessage
                    (encode_basestring_ascii
                       (py "I am not sure what the weather is in " ++ location))
                    (py "get_weather") call_id])) ∧
  (∀ location', returns (get_weather lower location') = true).
Proof.
  intros Hcities.
  assert (Hanswer : get_weather lower location
            = Ok (PyStr (py "I am not sure what the weather is in " ++ location))).
  { unfold get_weather, cities in *.
    apply Forall_cons in Hcities as [Hsf Hrest].
    apply Forall_cons in Hrest as [Hsan _].
    simpl. by rewrite Hsf, Hsan. }
  split; [done|]. split.
  - intros pre content call_id. rewrite tool_node_snoc. simpl.
    unfold getitem. rewrite by_name_tools. simpl.
    rewrite lookup_singleton_eq. by rewrite Hanswer.
  - intros location'. by destruct (get_weather_returns lower location') as [s ->].
Qed.

Lemma get_weather_unregistered_witness :
  Forall (λ city, str_in city (ascii_lower (py "Paris, France")) = false) cities ∧
  get_weather ascii_lower (py "Paris, France")
  = Ok (PyStr (py "I am not sure what the weather is in Paris, France")).
Proof.
  assert (Hcities : Forall (λ city, str_in city (ascii_lower (py "Paris, France")) = false)
                      cities).
  { repeat constructor. }
  split; [exact Hcities|].
  apply (get_weather_unregistered ascii_lower (py "Paris, France") Hcities).
Defined.

(** ** The agent step *)

(** What the client is sent: the system instruction, then the messages. *)
Example call_model_prompt_first :
  call_model echo_model inputs []
  = Ok (State [AIMessage (AI (py "You are a helpful AI assistant, please respond to the users query to the best of your ability! | what is the weather in sf") [])]).
Proof. reflexivity. Qed.

(** ** The loop *)

Section Loop.
Variable tools_by_name : gmap str Tool.t.
Variable model : list BaseMessage → RunnableConfig → result ai_message.

Local Abbreviation wf := (workflow tools_by_name model).

Lemma successors_start (state : AgentState) :
  successors wf START state = Ok [py "agent"].
Proof. reflexivity. Qed.

Lemma successors_tools (state : AgentState) :
  successors wf (py "tools") state = Ok [py "agent"].
Proof. reflexivity. Qed.

Lemma successors_agent (state : AgentState) :
  successors wf (py "agent") state
  = label ← should_continue state; target ← getitem routes label; Ok [target].
Proof.
  unfold successors. simpl.
  destruct (should_continue state) as [label|]; [|done]. simpl.
  by destruct (getitem routes label).
Qed.

Lemma successors_other (n : str) (state : AgentState) :
  n ≠ START → n ≠ py "tools" → n ≠ py "agent" →
  successors wf n state = Ok [].
Proof.
  intros Hstart Htools Hagent. unfold successors. simpl.
  rewrite !filter_cons, filter_nil. simpl.
  rewrite !decide_False by done. by simpl.
Qed.

Lemma successors_agent_routed (state : AgentState) (l : list str) :
  successors wf (py "agent") state = Ok l ↔
  (should_continue state = Ok (py "continue") ∧ l = [py "tools"]) ∨
  (should_continue state = Ok (py "end") ∧ l = [END]).
Proof.
  rewrite successors_agent. split.
  - destruct (should_continue state) as [label|] eqn:Hlabel; [|done].
    destruct (should_continue_inv _ _ Hlabel) as (pre & ai & _ & ->).
    destruct (truthy (ai_tool_calls ai)); simpl; intros [= <-]; auto.
  - by intros [[-> ->]|[-> ->]].
Qed.

Lemma nodes_tools :
  nodes wf !! py "tools" = Some (λ state _, tool_node tools_by_name state).
Proof. reflexivity. Qed.

Lemma nodes_agent : nodes wf !! py "agent" = Some (call_model model).
Proof. reflexivity. Qed.

Lemma nodes_other (n : str) :
  n ≠ py "tools" → n ≠ py "agent" → nodes wf !! n = None.
Proof.
  intros Htools Hagent. unfold workflow. simpl.
  rewrite lookup_insert_ne by done. by rewrite lookup_insert_ne.
Qed.
End Loop.

(** C6: the transitions of the loop are exactly: from [START] to "agent";
    from "agent" to "tools" when [should_continue] returns "continue" and to
    [END] when it returns "end"; from "tools" to "agent", in every state.  In
    particular "tools" never leads to [END]. *)
Theorem loop_transitions (tools_by_name : gmap str Tool.t)
    (model : list BaseMessage → RunnableConfig → result ai_message)
    (state : AgentState) (n n' : str) :
  (transition (workflow tools_by_name model) state n n' ↔
     (n = START ∧ n' = py "agent") ∨
     (n = py "agent" ∧ should_continue state = Ok (py "continue") ∧ n' = py "tools") ∨
     (n = py "agent" ∧ should_continue state = Ok (py "end") ∧ n' = END) ∨
     (n = py "tools" ∧ n' = py "agent")) ∧
  ¬ transition (workflow tools_by_name model) state (py "tools") END.
Proof.
  split.
  - unfold transition. split.
    + intros (l & Hl & Hn').
      destruct (decide (n = START)) as [->|Hstart].
      { rewrite successors_start in Hl. injection Hl as <-.
        apply list_elem_of_singleton in Hn'. auto. }
      destruct (decide (n = py "tools")) as [->|Htools].
      { rewrite successors_tools in Hl. injection Hl as <-.
        apply list_elem_of_singleton in Hn'. auto 6. }
      destruct (decide (n = py "agent")) as [->|Hagent].
      { apply successors_agent_routed in Hl as [[Hc ->]|[Hc ->]];
          apply list_elem_of_singleton in Hn'; auto 6. }
      rewrite successors_other in Hl by done. injection Hl as <-.
      by apply elem_of_nil in Hn'.
    + intros [[-> ->]|[(-> & Hc & ->)|[(-> & Hc & ->)|[-> ->]]]].
      * exists [py "agent"]. split; [apply successors_start|by left].
      * exists [py "tools"]. split; [|by left].
        apply successors_agent_routed. auto.
      * exists [END]. split; [|by left].
        apply successors_agent_routed. auto.
      * exists [py "agent"]. split; [apply successors_tools|by left].
  - intros (l & Hl & Hend). rewrite successors_tools in Hl. injection Hl as <-.
    by apply list_elem_of_singleton in Hend.
Qed.

(** ** Moves of the executor *)

Section Moves.
Variable tools_by_name : gmap str Tool.t.
Variable model : list BaseMessage → RunnableConfig → result ai_message.
Variable config : RunnableConfig.

Local Abbreviation wf := (workflow tools_by_name model).

Lemma exec_step_tools (state : AgentState) :
  exec_step wf config (py "tools", state)
  = delta ← tool_node tools_by_name state;
    Ok [(py "agent", update_state state delta)].
Proof.
  unfold exec_step. rewrite decide_False by done. rewrite nodes_tools.
  by destruct (tool_node tools_by_name state).
Qed.

Lemma step_inv (n : str) (state : AgentState) (c' : str * AgentState) :
  step wf config (n, state) c' →
  (n = START ∧ c' = (py "agent", state)) ∨
  (n = py "agent" ∧ ∃ response n',
     call_model model state config = Ok (State [AIMessage response]) ∧
     c' = (n', State (messages state ++ [AIMessage response]))) ∨
  (n = py "tools" ∧ ∃ delta,
     tool_node tools_by_name state = Ok delta ∧
     c' = (py "agent", State (messages state ++ messages delta))).
Proof.
  intros (l & Hl & Hc'). unfold exec_step in Hl.
  destruct (decide (n = START)) as [->|Hstart].
  { rewrite successors_start in Hl. injection Hl as <-.
    apply list_elem_of_singleton in Hc'. auto. }
  destruct (decide (n = py "tools")) as [->|Htools].
  { rewrite nodes_tools in Hl. right. right. split; [done|].
    destruct (tool_node tools_by_name state) as [delta|]; [|done].
    exists delta. split; [done|]. simpl in Hl. injection Hl as <-.
    by apply list_elem_of_singleton in Hc'. }
  destruct (decide (n = py "agent")) as [->|Hagent].
  { rewrite nodes_agent in Hl. right. left. split; [done|].
    unfold call_model in *.
    destruct (model _ config) as [response|]; [|done]. simpl in Hl.
    destruct (successors wf _ _) as [next|]; [|done]. simpl in Hl.
    injection Hl as <-. apply list_elem_of_fmap in Hc' as (n' & -> & _).
    by exists response, n'. }
  rewrite nodes_other in Hl by done. injection Hl as <-.
  by apply elem_of_nil in Hc'.
Qed.

Lemma run_reachable (g : StateGraph) (fuel : nat) (c c' : str * AgentState) :
  run g config fuel c = Ok c' → rtc (step g config) c c'.
Proof.
  revert c. induction fuel as [|fuel IH]; intros c; simpl.
  - intros [= <-]. apply rtc_refl.
  - destruct (exec_step g config c) as [l|] eqn:Hl; [|done]. simpl.
    destruct l as [|c1 l].
    + intros [= <-]. apply rtc_refl.
    + intros Hrun. eapply rtc_l; [|by apply IH].
      exists (c1 :: l). split; [done|by left].
Qed.
End Moves.

(** C3: when a tool call of the final message names a tool with no entry in
    the registry, [tool_node] raises and returns no delta; the exception
    reaches the executor, so the "tools" step of the loop produces no next
    state.  When the calls before it were dispatched without error, the
    exception is the [KeyError] for that name, and what was built for those
    calls is not returned. *)
Theorem tool_node_unknown_tool (tools_by_name : gmap str Tool.t)
    (model : list BaseMessage → RunnableConfig → result ai_message)
    (config : RunnableConfig)
    (pre : list BaseMessage) (ai : ai_message) (tc : ToolCall.t) :
  tc ∈ ai_tool_calls ai →
  tools_by_name !! ToolCall.name tc = None →
  (∃ e, tool_node tools_by_name (State (pre ++ [AIMessage ai])) = Raise e ∧
        exec_step (workflow tools_by_name model) config
          (py "tools", State (pre ++ [AIMessage ai])) = Raise e) ∧
  (∀ c', ¬ step (workflow tools_by_name model) config
             (py "tools", State (pre ++ [AIMessage ai])) c') ∧
  (∀ before rest,
     ai_tool_calls ai = before ++ tc :: rest →
     Forall (dispatchable tools_by_name) before →
     tool_node tools_by_name (State (pre ++ [AIMessage ai]))
     = Raise (KeyError (ToolCall.name tc))).
Proof.
  intros Hin Hnone.
  assert (Hraise : ∃ e, tool_node tools_by_name (State (pre ++ [AIMessage ai])) = Raise e).
  { destruct (tool_node _ _) as [delta|e] eqn:Hnode; [|eauto].
    apply tool_node_Ok in Hnode as (pre' & ai' & Heq & Hnew). simpl in Heq.
    apply app_inj_tail in Heq as [_ [= <-]].
    apply list_elem_of_lookup in Hin as [i Hi].
    destruct (Forall2_lookup_l _ _ _ _ _ Hnew Hi) as (m & _ & Hans).
    destruct Hans as (t & _ & _ & Ht & _). congruence. }
  destruct Hraise as [e He]. split; [|split].
  - exists e. split; [done|]. rewrite exec_step_tools. by rewrite He.
  - intros c' (l & Hl & _). rewrite exec_step_tools in Hl. by rewrite He in Hl.
  - intros before rest Hcalls Hbefore. rewrite tool_node_snoc. simpl.
    rewrite Hcalls.
    destruct (dispatchable_answered _ _ Hbefore) as [new Hnew].
    rewrite (tool_node_loop_app tools_by_name before (tc :: rest) [] new Hnew).
    simpl. unfold getitem. by rewrite Hnone.
Qed.

Lemma tool_node_unknown_tool_witness :
  unregistered_call ∈ [recorded_call; unregistered_call] ∧
  notebook_registry !! ToolCall.name unregistered_call = None ∧
  tool_node notebook_registry
    (State (messages inputs ++ [AIMessage (AI [] [recorded_call; unregistered_call])]))
  = Raise (KeyError (py "search")).
Proof.
  assert (Hin : unregistered_call ∈ ai_tool_calls (AI [] [recorded_call; unregistered_call])).
  { right. left. }
  split; [exact Hin|]. split; [reflexivity|].
  destruct (tool_node_unknown_tool notebook_registry recorded_model []
              (messages inputs) (AI [] [recorded_call; unregistered_call])
              unregistered_call Hin eq_refl) as (_ & _ & Hkey).
  apply (Hkey [recorded_call] []); [reflexivity|].
  repeat constructor.
  by exists (tool (py "get_weather") (py "location") (get_weather ascii_lower)),
            (PyStr sunny), (encode_basestring_ascii sunny).
Defined.

(** ** What the agent step sends and keeps *)

(** Equality of messages is decidable, so a client can tell what it was
    sent. *)
Lemma pyval_eq_dec : ∀ a b : pyval, {a = b} + {a ≠ b}.
Proof.
  fix IH 1. intros a b.
  destruct a as [|x|x|x|l|d|x], b as [|y|y|y|k|e|y];
    try (right; discriminate); try (left; reflexivity).
  - destruct (decide (x = y)) as [->|Hne]; [by left|right; congruence].
  - destruct (decide (x = y)) as [->|Hne]; [by left|right; congruence].
  - destruct (decide (x = y)) as [->|Hne]; [by left|right; congruence].
  - assert (Hl : {l = k} + {l ≠ k}).
    { revert k. induction l as [|v l IHl]; intros [|w k];
        [by left|by right|by right|].
      destruct (IH v w) as [->|Hne]; [|right; congruence].
      destruct (IHl k) as [->|Hne]; [by left|right; congruence]. }
    destruct Hl as [->|Hne]; [by left|right; congruence].
  - assert (Hd : {d = e} + {d ≠ e}).
    { revert e. induction d as [|[kv v] d IHd]; intros [|[kw w] e];
        [by left|by right|by right|].
      destruct (decide (kv = kw)) as [->|Hne]; [|right; congruence].
      destruct (IH v w) as [->|Hne]; [|right; congruence].
      destruct (IHd e) as [->|Hne]; [by left|right; congruence]. }
    destruct Hd as [->|Hne]; [by left|right; congruence].
  - destruct (decide (x = y)) as [->|Hne]; [by left|right; congruence].
Qed.

Lemma BaseMessage_eq_dec : ∀ a b : BaseMessage, {a = b} + {a ≠ b}.
Proof.
  pose proof (pyval_eq_dec : EqDecision pyval) as Hpyval.
  assert (Hcall : EqDecision ToolCall.t) by solve_decision.
  assert (Hai : EqDecision ai_message) by solve_decision.
  intros a b. change (Decision (a = b)). solve_decision.
Qed.

(** C4: whatever model client is plugged in, [call_model] on a state
    behaves as one call of the client on the system instruction "You are a
    helpful AI assistant, ..." followed by the messages of the state, and on
    no other sequence: that sequence is the only one for which this holds
    for every client.  When the client answers, the delta is exactly the one
    model-authored message it answered with and holds no system message;
    along the loop started on the state, no state reached holds a system
    message the starting state did not hold, although every agent step
    sends the instruction. *)
Theorem call_model_delta (state : AgentState) (config : RunnableConfig) :
  (∀ model,
     call_model model state config
     = delta_of
         (model (SystemMessage (py "You are a helpful AI assistant, please respond to the users query to the best of your ability!")
                 :: messages state) config)) ∧
  (∀ sent,
     (∀ model, call_model model state config = delta_of (model sent config)) →
     sent = SystemMessage (py "You are a helpful AI assistant, please respond to the users query to the best of your ability!")
            :: messages state) ∧
  (∀ model delta,
     call_model model state config = Ok delta →
     ∃ response,
       messages delta = [AIMessage response] ∧
       List.filter is_system_message (messages delta) = []) ∧
  (∀ tools_by_name model n state',
     rtc (step (workflow tools_by_name model) config) (START, state) (n, state') →
     List.filter is_system_message (messages state')
     = List.filter is_system_message (messages state)).
Proof.
  assert (Hcall : ∀ model,
     call_model model state config
     = delta_of (model (system_prompt :: messages state) config)).
  { intros model. unfold call_model, delta_of. cbn.
    by destruct (model (system_prompt :: messages state) config). }
  split; [exact Hcall|]. split; [|split].
  - intros sent Hsent.
    set (probe := λ (msgs : list BaseMessage) (_ : RunnableConfig),
           if List.list_eq_dec BaseMessage_eq_dec msgs (system_prompt :: messages state)
           then Ok (AI [] []) else @Raise ai_message IndexError).
    specialize (Hsent probe). rewrite (Hcall probe) in Hsent.
    unfold probe in Hsent.
    destruct (List.list_eq_dec _ (system_prompt :: messages state) _) as [_|Hne];
      [|done].
    by destruct (List.list_eq_dec _ sent _) as [->|_].
  - intros model delta. rewrite Hcall. unfold delta_of.
    destruct (model _ config) as [response|]; [|done].
    intros [= <-]. by exists response.
  - intros tools_by_name model n state' Hreach.
    refine (rtc_ind_r
              (λ c, List.filter is_system_message (messages c.2)
                    = List.filter is_system_message (messages state))
              (START, state) eq_refl _ (n, state') Hreach).
    intros [n1 s1] [n2 s2] _ Hstep IH. cbn in *. rewrite <- IH.
    apply step_inv in Hstep
      as [[_ [= _ ->]]|[(_ & response & n' & _ & [= _ ->])|(_ & delta & Hnode & [= _ ->])]];
      cbn; [done| |].
    + rewrite List.filter_app. cbn. apply app_nil_r.
    + rewrite List.filter_app.
      apply tool_node_Ok in Hnode as (pre & ai & _ & Hnew).
      assert (List.filter is_system_message (messages delta) = []) as ->;
        [|apply app_nil_r].
      induction Hnew as [|tc m calls new Hm _ IHnew]; [done|].
      destruct Hm as (t & v & c & _ & _ & _ & ->). by cbn.
Qed.

Lemma call_model_delta_witness :
  call_model recorded_model inputs [] = Ok (State [AIMessage (AI [] [recorded_call])]) ∧
  List.filter is_system_message (messages recorded_final)
  = List.filter is_system_message (messages inputs).
Proof.
  destruct (call_model_delta inputs []) as (Hcall & _ & _ & Hloop). split.
  - exact (Hcall recorded_model).
  - apply (Hloop notebook_registry recorded_model END recorded_final).
    apply (run_reachable [] graph 10). reflexivity.
Defined.

(** ** The message invariant along the loop *)

Lemma answers_preceding_model (msgs : list BaseMessage) (ai : ai_message) :
  answers_preceding msgs → answers_preceding (msgs ++ [AIMessage ai]).
Proof.
  intros Hinv pre content name tool_call_id post Heq.
  destruct post as [|m post _] using rev_ind.
  - apply app_inj_tail in Heq as [_ Heq]. discriminate Heq.
  - rewrite app_comm_cons, app_assoc in Heq.
    apply app_inj_tail in Heq as [Heq _].
    by apply (Hinv pre content name tool_call_id post).
Qed.

Lemma answers_preceding_tools (tools_by_name : gmap str Tool.t)
    (pre0 : list BaseMessage) (ai : ai_message) (new : list BaseMessage) :
  answers_preceding (pre0 ++ [AIMessage ai]) →
  Forall2 (answered tools_by_name) (ai_tool_calls ai) new →
  answers_preceding ((pre0 ++ [AIMessage ai]) ++ new).
Proof.
  intros Hinv Hnew pre content name tool_call_id post Heq.
  assert (Htools : Forall (λ m, is_tool_message m = true ∧
            ∀ c nm tid, m = ToolMessage c nm tid →
              tid ∈ ToolCall.id <$> ai_tool_calls ai) new).
  { clear Heq. induction Hnew as [|tc m calls new Hm _ IH] in |- *; [constructor|].
    destruct Hm as (t & v & c & _ & _ & _ & ->). constructor.
    - split; [done|]. intros c' nm tid [= _ _ <-]. simpl. by left.
    - eapply Forall_impl; [exact IH|]. intros m [Hm1 Hm2]. split; [done|].
      intros c' nm tid Hmeq. simpl. right. by eapply Hm2. }
  apply app_eq_inv in Heq as [(k & Hk1 & Hk2)|(k & Hk1 & Hk2)].
  - destruct k as [|m k].
    + rewrite app_nil_r in Hk1. simpl in Hk2. subst.
      exists pre0, ai, []. split; [done|]. split; [done|].
      apply Forall_cons in Htools as [[_ Hid] _]. by eapply Hid.
    + simpl in Hk2. injection Hk2 as <- ->.
      by apply (Hinv pre content name tool_call_id k).
  - subst. apply Forall_app in Htools as [Hk Hrest].
    apply Forall_cons in Hrest as [[_ Hid] _].
    exists pre0, ai, k. split; [by rewrite <- app_assoc|]. split.
    + apply forallb_forall. intros m Hm%list_elem_of_In.
      rewrite Forall_forall in Hk. by apply Hk.
    + by eapply Hid.
Qed.

(** C8: every tool-result message in a delta of [tool_node] carries the
    identifier of a tool call of the final, model-authored message of the
    state it was run on; and along the loop, started on messages in which
    every tool result answers the model-authored message before it, every
    state reached has that property. *)
Theorem tool_results_answer_model (tools_by_name : gmap str Tool.t)
    (model : list BaseMessage → RunnableConfig → result ai_message)
    (config : RunnableConfig) (state0 : AgentState) (n : str) (state : AgentState) :
  answers_preceding (messages state0) →
  rtc (step (workflow tools_by_name model) config) (START, state0) (n, state) →
  answers_preceding (messages state) ∧
  (∀ delta, tool_node tools_by_name state = Ok delta →
     ∃ pre ai,
       messages state = pre ++ [AIMessage ai] ∧
       Forall (λ m, ∃ content name tool_call_id,
                 m = ToolMessage content name tool_call_id ∧
                 tool_call_id ∈ ToolCall.id <$> ai_tool_calls ai)
         (messages delta)).
Proof.
  intros Hinit Hreach. split.
  - refine (rtc_ind_r (λ c, answers_preceding (messages c.2)) (START, state0)
              Hinit _ (n, state) Hreach).
    intros [n1 s1] [n2 s2] _ Hstep IH. simpl in *.
    apply step_inv in Hstep
      as [[_ [= _ ->]]|[(_ & response & n' & _ & [= _ ->])|(_ & delta & Hnode & [= _ ->])]];
      simpl.
    + done.
    + by apply answers_preceding_model.
    + apply tool_node_Ok in Hnode as (pre & ai & Hs1 & Hnew).
      rewrite Hs1 in *. by eapply answers_preceding_tools.
  - intros delta (pre & ai & Hstate & Hnew)%tool_node_Ok.
    exists pre, ai. split; [done|].
    induction Hnew as [|tc m calls new Hm _ IH]; [constructor|].
    destruct Hm as (t & v & c & _ & _ & _ & ->). constructor.
    + exists c, (ToolCall.name tc), (ToolCall.id tc). split; [done|]. simpl. by left.
    + eapply Forall_impl; [exact IH|].
      intros m (c' & nm & tid & -> & Hin). exists c', nm, tid. split; [done|].
      simpl. by right.
Qed.

(** The loop is seeded with one human-authored message, which has the
    property. *)
Lemma answers_preceding_seed (question : str) :
  answers_preceding [HumanMessage question].
Proof.
  intros pre content name tool_call_id post Heq.
  destruct pre as [|m [|m' pre]]; discriminate Heq.
Qed.

Lemma tool_results_answer_model_witness :
  answers_preceding (messages inputs) ∧
  rtc (step graph []) (START, inputs) (END, recorded_final) ∧
  answers_preceding (messages recorded_final).
Proof.
  assert (Hinit : answers_preceding (messages inputs))
    by apply answers_preceding_seed.
  assert (Hreach : rtc (step graph []) (START, inputs) (END, recorded_final))
    by (apply (run_reachable [] graph 10); reflexivity).
  split; [exact Hinit|]. split; [exact Hreach|].
  exact (proj1 (tool_results_answer_model notebook_registry recorded_model []
                  inputs END recorded_final Hinit Hreach)).
Defined.

(** * Further properties of the notebooks' code *)

(** ** [_set_env] *)

(** X1: a variable that is set to a non-empty value is left alone:
    [_set_env] returns the environment unchanged and does not depend on the
    prompt, not even on whether prompting would fail. *)
Theorem set_env_keeps (getpass : str → result str) (var value : str)
    (environ : gmap str str) :
  environ !! var = Some value →
  value ≠ [] →
  _set_env getpass var environ = Ok environ.
Proof.
  intros Hvar Hvalue. unfold _set_env, environ_get. rewrite Hvar. simpl.
  by destruct value.
Qed.

Lemma set_env_keeps_witness :
  ({[ py "OPENAI_API_KEY" := py "sk-1" ]} : gmap str str) !! py "OPENAI_API_KEY"
  = Some (py "sk-1") ∧
  py "sk-1" ≠ [] ∧
  _set_env (λ _, Raise (Exception (py "EOFError"))) (py "OPENAI_API_KEY")
    {[ py "OPENAI_API_KEY" := py "sk-1" ]}
  = Ok {[ py "OPENAI_API_KEY" := py "sk-1" ]}.
Proof.
  split; [reflexivity|]. split; [discriminate|].
  apply (set_env_keeps _ (py "OPENAI_API_KEY") (py "sk-1")); [reflexivity|discriminate].
Defined.









(** ** The registry [tools_by_name] *)

Lemma by_name_snoc (tools : list Tool.t) (t : Tool.t) :
  by_name (tools ++ [t]) = <[Tool.name t := t]> (by_name tools).
Proof. unfold by_name. by rewrite foldl_app. Qed.

(** X4: a name resolves to the last tool listed under it, and to nothing
    exactly when no listed tool has that name. *)
Theorem by_name_lookup (tools : list Tool.t) (name : str) :
  by_name tools !! name = last (filter (λ t, Tool.name t = name) tools) ∧
  (by_name tools !! name = None ↔ Forall (λ t, Tool.name t ≠ name) tools).
Proof.
  assert (Hlast : by_name tools !! name
                  = last (filter (λ t, Tool.name t = name) tools)).
  { induction tools as [|t tools IH] using rev_ind; [done|].
    rewrite by_name_snoc, filter_app, filter_cons, filter_nil.
    destruct (decide (Tool.name t = name)) as [<-|Hne].
    - by rewrite lookup_insert_eq, last_snoc.
    - rewrite lookup_insert_ne by done. by rewrite app_nil_r. }
  split; [done|]. rewrite Hlast, last_None. split.
  - intros Hnil. apply Forall_forall. intros t Ht Hname.
    assert (Hin : t ∈ filter (λ t, Tool.name t = name) tools)
      by (by apply list_elem_of_filter).
    rewrite Hnil in Hin. by apply elem_of_nil in Hin.
  - intros Hall. clear Hlast. induction Hall as [|t tools Ht _ IH]; [done|].
    rewrite filter_cons_False by done. exact IH.
Qed.

(** ** [print_stream] *)

Lemma print_stream_loop_yield_all (states : list streamed) (shown : list printed)
    (finish : generator) (out : list printed) :
  Forall2 shows_last states shown →
  print_stream_loop (yield_all states finish) out
  = print_stream_loop finish (out ++ shown).
Proof.
  intros Hshown. revert out.
  induction Hshown as [|s p states shown (message & Hlast & ->) _ IH];
    intros out; simpl.
  - by rewrite app_nil_r.
  - unfold last_item. rewrite Hlast. rewrite IH. by rewrite <- app_assoc.
Qed.

(** X5: on a stream that yields states which all hold a message and then
    ends, [print_stream] returns normally after printing one item per
    state, in the order of the stream: the last message of that state, with
    [print] for a tuple and [pretty_print] for a message object.  Messages
    before the last one of a state are never printed. *)
Theorem print_stream_shows_last (states : list streamed) (shown : list printed) :
  Forall2 shows_last states shown →
  print_stream (yield_all states Exhausted) = (shown, Ok tt) ∧
  length shown = length states.
Proof.
  intros Hshown. split.
  - unfold print_stream. by rewrite (print_stream_loop_yield_all _ shown).
  - symmetry. by eapply Forall2_length.
Qed.

Lemma print_stream_shows_last_witness :
  Forall2 shows_last
    [Streamed [TupleMessage (py "user") (py "what is the weather in sf")];
     Streamed (ObjectMessage <$> messages recorded_final)]
    [Print (py "user") (py "what is the weather in sf");
     PrettyPrint (AIMessage (AI recorded_answer []))] ∧
  print_stream
    (yield_all
       [Streamed [TupleMessage (py "user") (py "what is the weather in sf")];
        Streamed (ObjectMessage <$> messages recorded_final)] Exhausted)
  = ([Print (py "user") (py "what is the weather in sf");
      PrettyPrint (AIMessage (AI recorded_answer []))], Ok tt).
Proof.
  assert (Hshown : Forall2 shows_last
    [Streamed [TupleMessage (py "user") (py "what is the weather in sf")];
     Streamed (ObjectMessage <$> messages recorded_final)]
    [Print (py "user") (py "what is the weather in sf");
     PrettyPrint (AIMessage (AI recorded_answer []))]).
  { repeat constructor.
    - by exists (TupleMessage (py "user") (py "what is the weather in sf")).
    - by exists (ObjectMessage (AIMessage (AI recorded_answer []))). }
  split; [exact Hshown|].
  exact (proj1 (print_stream_shows_last _ _ Hshown)).
Defined.

(** X6: when the stream raises after yielding some states, or yields a
    state with no message (so that [s["messages"][-1]] raises [IndexError]),
    [print_stream] raises that exception; what it printed for the states
    before stays printed, and nothing after that point is printed. *)
Theorem print_stream_failure (states : list streamed) (shown : list printed) :
  Forall2 shows_last states shown →
  (∀ e, print_stream (yield_all states (Fails e)) = (shown, Raise e)) ∧
  (∀ rest, print_stream (yield_all states (Yield (Streamed []) rest))
           = (shown, Raise IndexError)).
Proof.
  intros Hshown. unfold print_stream. split.
  - intros e. by rewrite (print_stream_loop_yield_all _ shown).
  - intros rest. by rewrite (print_stream_loop_yield_all _ shown).
Qed.

Lemma print_stream_failure_witness :
  Forall2 shows_last [Streamed (ObjectMessage <$> messages inputs)]
    [PrettyPrint (HumanMessage (py "what is the weather in sf"))] ∧
  print_stream
    (yield_all [Streamed (ObjectMessage <$> messages inputs)]
       (Fails (KeyError (py "search"))))
  = ([PrettyPrint (HumanMessage (py "what is the weather in sf"))],
     Raise (KeyError (py "search"))).
Proof.
  assert (Hshown : Forall2 shows_last [Streamed (ObjectMessage <$> messages inputs)]
            [PrettyPrint (HumanMessage (py "what is the weather in sf"))]).
  { repeat constructor.
    by exists (ObjectMessage (HumanMessage (py "what is the weather in sf"))). }
  split; [exact Hshown|].
  exact (proj1 (print_stream_failure _ _ Hshown) (KeyError (py "search"))).
Defined.

(** ** The weather tools *)

Lemma startswith_spec (p s : str) : startswith p s = true ↔ ∃ b, s = p ++ b.
Proof.
  revert s. induction p as [|a p IH]; intros s; simpl.
  - split; eauto.
  - destruct s as [|c s].
    + split; [done|]. by intros [b Hb].
    + rewrite andb_true_iff, N.eqb_eq, IH. split.
      * intros [-> [b ->]]. eauto.
      * intros [b [= -> ->]]. eauto.
Qed.

Lemma str_in_spec (p s : str) : str_in p s = true ↔ ∃ a b, s = a ++ p ++ b.
Proof.
  induction s as [|c s IH]; simpl.
  - rewrite orb_false_r, startswith_spec. split.
    + intros [b Hb]. by exists [], b.
    + intros (a & b & Heq). symmetry in Heq.
      apply app_eq_nil in Heq as [-> Heq]. eauto.
  - rewrite orb_true_iff, startswith_spec, IH. split.
    + intros [[b Hb]|(a & b & ->)]; [by exists [], b|by exists (c :: a), b].
    + intros (a & b & Heq). destruct a as [|c' a].
      * left. eauto.
      * right. injection Heq as -> ->. eauto.
Qed.

(** X7: [get_weather] gives the sunny answer exactly when "sf" or "san
    francisco" occurs as a contiguous run in the lowered location; in every
    other case it answers that it is not sure, quoting the location as it
    was given. *)
Theorem get_weather_sunny_iff (lower : str → str) (location : str) :
  (get_weather lower location = Ok (PyStr sunny) ↔
   ∃ city a b, city ∈ cities ∧ lower location = a ++ city ++ b) ∧
  (get_weather lower location ≠ Ok (PyStr sunny) →
   get_weather lower location
   = Ok (PyStr (py "I am not sure what the weather is in " ++ location))).
Proof.
  assert (Hany : any (map (λ city, str_in city (lower location)) cities) = true ↔
                 ∃ city a b, city ∈ cities ∧ lower location = a ++ city ++ b).
  { unfold cities. simpl. rewrite orb_false_r, orb_true_iff, !str_in_spec. split.
    - intros [(a & b & H)|(a & b & H)].
      + exists (py "sf"), a, b. split; [by left|done].
      + exists (py "san francisco"), a, b. split; [by right; left|done].
    - intros (city & a & b & Hcity & H).
      apply elem_of_cons in Hcity as [->|Hcity]; [left; eauto|].
      apply list_elem_of_singleton in Hcity as ->. right. eauto. }
  unfold get_weather.
  destruct (any _) eqn:Hcase; split.
  - split; [intros _; by apply Hany|done].
  - done.
  - split; [discriminate|]. intros Hex. apply Hany in Hex. discriminate Hex.
  - done.
Qed.



(** ** Serialized values are plain ASCII *)

Lemma py_cons (c : ascii) (s : string) : py (String c s) = N_of_ascii c :: py s.
Proof. reflexivity. Qed.

Lemma string_of_uint_printable (d : Decimal.uint) :
  Forall printable (py (NilEmpty.string_of_uint d)).
Proof.
  induction d; simpl; [constructor|..];
    rewrite py_cons; (constructor; [unfold printable; simpl; lia|done]).
Qed.

Lemma str_of_int_printable (z : Z) : Forall printable (str_of_int z).
Proof.
  unfold str_of_int, NilZero.string_of_int, NilZero.string_of_uint.
  destruct (Z.to_int z) as [d|d].
  - destruct d; try apply string_of_uint_printable.
    repeat constructor; unfold printable; simpl; lia.
  - rewrite py_cons. constructor; [unfold printable; simpl; lia|].
    destruct d; try apply string_of_uint_printable.
    repeat constructor; unfold printable; simpl; lia.
Qed.

Lemma join_printable (sep : str) (parts : list str) :
  Forall printable sep → Forall (λ part : str, Forall printable part) parts →
  Forall printable (join sep parts).
Proof.
  intros Hsep Hparts. induction Hparts as [|x parts Hx Hrest IH]; [constructor|].
  simpl. destruct parts as [|y parts]; [done|].
  apply Forall_app. split; [done|]. apply Forall_app. by split.
Qed.

Lemma py_printable_lit (s : str) : forallb (λ c, (32 <=? c) && (c <=? 126)) s = true → Forall printable s.
Proof.
  intros H. apply Forall_forall. intros c Hc%list_elem_of_In.
  rewrite forallb_forall in H. apply H in Hc.
  apply andb_prop in Hc as [?%N.leb_le ?%N.leb_le]. by split.
Qed.

Lemma json_dumps_printable : ∀ (v : pyval) (s : str),
  json_dumps v = Ok s → Forall printable s.
Proof.
  fix IH 1. intros v s. destruct v as [|[|]|z|x|l|d|r]; cbn.
  - intros <-%Ok_inj. by apply py_printable_lit.
  - intros <-%Ok_inj. by apply py_printable_lit.
  - intros <-%Ok_inj. by apply py_printable_lit.
  - intros <-%Ok_inj. apply str_of_int_printable.
  - intros <-%Ok_inj. apply encode_basestring_ascii_printable.
  - match goal with |- context [mbind _ (?f l)] => set (dump := f) end.
    assert (Hitems : ∀ items, dump l = Ok items → Forall (λ part : str, Forall printable part) items).
    { induction l as [|x l IHl]; cbn.
      - intros items <-%Ok_inj. constructor.
      - intros items. destruct (json_dumps x) as [sx|] eqn:Hx; [|done]. cbn.
        destruct (dump l) as [ss|] eqn:Hl; [|done]. cbn. intros <-%Ok_inj.
        constructor; [by apply (IH x)|by apply IHl]. }
    destruct (dump l) as [items|]; [|done]. cbn. intros <-%Ok_inj.
    apply Forall_app. split; [by apply py_printable_lit|].
    apply Forall_app. split; [|by apply py_printable_lit].
    apply join_printable; [by apply py_printable_lit|by apply Hitems].
  - match goal with |- context [mbind _ (?f d)] => set (dump := f) end.
    assert (Hitems : ∀ items, dump d = Ok items → Forall (λ part : str, Forall printable part) items).
    { induction d as [|[k x] d IHd]; cbn.
      - intros items <-%Ok_inj. constructor.
      - intros items. destruct (json_dumps x) as [sx|] eqn:Hx; [|done]. cbn.
        destruct (dump d) as [ss|] eqn:Hd; [|done]. cbn. intros <-%Ok_inj.
        constructor; [|by apply IHd].
        change (Forall printable (encode_basestring_ascii k ++ py ": " ++ sx)).
        apply Forall_app. split; [apply encode_basestring_ascii_printable|].
        apply Forall_app. split; [by apply py_printable_lit|by apply (IH x)]. }
    destruct (dump d) as [items|]; [|done]. cbn. intros <-%Ok_inj.
    apply Forall_app. split; [by apply py_printable_lit|].
    apply Forall_app. split; [|by apply py_printable_lit].
    apply join_printable; [by apply py_printable_lit|by apply Hitems].
  - done.
Qed.

(** ** More on the tool dispatch step *)

(** X9: [tool_node] looks at the final message only: the messages before it
    make no difference, so tool calls of earlier model messages are never
    dispatched again. *)
Theorem tool_node_final_only (tools_by_name : gmap str Tool.t)
    (pre pre' : list BaseMessage) (m : BaseMessage) :
  tool_node tools_by_name (State (pre ++ [m]))
  = tool_node tools_by_name (State (pre' ++ [m])).
Proof. by rewrite !tool_node_snoc. Qed.

(** X10: on a state without messages [tool_node] raises [IndexError], and
    on a final message that is not model-authored it raises
    [AttributeError] for [tool_calls]; in both cases no tool is looked up,
    whatever the registry holds. *)
Theorem tool_node_no_model_message (tools_by_name : gmap str Tool.t) :
  tool_node tools_by_name (State []) = Raise IndexError ∧
  ∀ pre m, (∀ ai, m ≠ AIMessage ai) →
    tool_node tools_by_name (State (pre ++ [m]))
    = Raise (AttributeError (py "tool_calls")).
Proof.
  split; [done|]. intros pre m Hm. rewrite tool_node_snoc.
  destruct m as [c|c|ai|c nm tid]; try done. by destruct (Hm ai).
Qed.

(** X11: the calls are dispatched in order and the first failure ends the
    step: when the calls before [tc] are dispatched without error and
    dispatching [tc] fails with [e] (unknown name, exception of the tool, or
    a value [json.dumps] rejects), [tool_node] raises [e]; the calls after
    [tc] play no part. *)
Theorem tool_node_first_failure (tools_by_name : gmap str Tool.t)
    (pre : list BaseMessage) (content : str)
    (before rest : list ToolCall.t) (tc : ToolCall.t) (e : exn) :
  Forall (dispatchable tools_by_name) before →
  dispatch_fails tools_by_name tc e →
  tool_node tools_by_name
    (State (pre ++ [AIMessage (AI content (before ++ tc :: rest))]))
  = Raise e.
Proof.
  intros Hbefore Hfail. rewrite tool_node_snoc. cbn.
  destruct (dispatchable_answered _ _ Hbefore) as [new Hnew].
  rewrite (tool_node_loop_app tools_by_name before (tc :: rest) [] new Hnew).
  cbn. unfold getitem.
  destruct Hfail as [[Hnone ->]|[(t & Ht & Hraise)|(t & v & Ht & Hv & Hdump)]].
  - by rewrite Hnone.
  - rewrite Ht. cbn. by rewrite Hraise.
  - rewrite Ht. cbn. rewrite Hv. cbn. by rewrite Hdump.
Qed.

Lemma tool_node_first_failure_witness :
  Forall (dispatchable notebook_registry) [recorded_call] ∧
  dispatch_fails notebook_registry
    (ToolCall.mk (py "get_weather") {[ py "city" := PyStr (py "sf") ]} (py "call_2"))
    ValidationError ∧
  tool_node notebook_registry
    (State (messages inputs ++
       [AIMessage (AI []
          ([recorded_call] ++
           ToolCall.mk (py "get_weather") {[ py "city" := PyStr (py "sf") ]}
                       (py "call_2") :: [recorded_call]))]))
  = Raise ValidationError.
Proof.
  assert (Hbefore : Forall (dispatchable notebook_registry) [recorded_call]).
  { repeat constructor.
    by exists (tool (py "get_weather") (py "location") (get_weather ascii_lower)),
              (PyStr sunny), (encode_basestring_ascii sunny). }
  assert (Hfail : dispatch_fails notebook_registry
            (ToolCall.mk (py "get_weather") {[ py "city" := PyStr (py "sf") ]}
                         (py "call_2")) ValidationError).
  { right. left.
    by exists (tool (py "get_weather") (py "location") (get_weather ascii_lower)). }
  split; [exact Hbefore|]. split; [exact Hfail|].
  exact (tool_node_first_failure notebook_registry (messages inputs) []
           [recorded_call] [recorded_call] _ ValidationError Hbefore Hfail).
Defined.

(** X12: dispatching the calls [l1 ++ l2] succeeds exactly when dispatching
    [l1] and dispatching [l2] both succeed, and the delta is then the delta
    for [l1] followed by the delta for [l2]. *)
Theorem tool_node_app (tools_by_name : gmap str Tool.t)
    (pre : list BaseMessage) (content : str) (l1 l2 : list ToolCall.t)
    (outputs : list BaseMessage) :
  tool_node tools_by_name (State (pre ++ [AIMessage (AI content (l1 ++ l2))]))
  = Ok (State outputs) ↔
  ∃ outputs1 outputs2,
    outputs = outputs1 ++ outputs2 ∧
    tool_node tools_by_name (State (pre ++ [AIMessage (AI content l1)]))
    = Ok (State outputs1) ∧
    tool_node tools_by_name (State (pre ++ [AIMessage (AI content l2)]))
    = Ok (State outputs2).
Proof.
  rewrite !tool_node_Ok. cbn. split.
  - intros (pre' & ai & Heq & Hnew).
    apply app_inj_tail in Heq as [_ [= <-]]. cbn in Hnew.
    apply Forall2_app_inv_l in Hnew as (o1 & o2 & H1 & H2 & ->).
    exists o1, o2. split; [done|]. split.
    + apply tool_node_Ok. by exists pre, (AI content l1).
    + apply tool_node_Ok. by exists pre, (AI content l2).
  - intros (o1 & o2 & -> & H1 & H2).
    apply tool_node_Ok in H1 as (pre1 & ai1 & Heq1 & Hnew1).
    apply tool_node_Ok in H2 as (pre2 & ai2 & Heq2 & Hnew2).
    cbn in *.
    apply app_inj_tail in Heq1 as [_ [= <-]].
    apply app_inj_tail in Heq2 as [_ [= <-]].
    exists pre, (AI content (l1 ++ l2)). split; [done|].
    by apply Forall2_app.
Qed.

(** X13: every message in a delta of [tool_node] is a tool-result message
    whose content consists of printable ASCII characters only, whatever the
    tools return: quotes, control characters and non-ASCII characters of a
    result arrive escaped. *)
Theorem tool_message_content_printable (tools_by_name : gmap str Tool.t)
    (state delta : AgentState) :
  tool_node tools_by_name state = Ok delta →
  Forall (λ m, is_tool_message m = true ∧ Forall printable (content_of m))
    (messages delta).
Proof.
  intros (pre & ai & _ & Hnew)%tool_node_Ok.
  induction Hnew as [|tc m calls new Hm _ IH]; [constructor|].
  constructor; [|done].
  destruct Hm as (t & v & content & _ & _ & Hdump & ->). cbn.
  split; [done|]. by eapply json_dumps_printable.
Qed.

Lemma tool_message_content_printable_witness :
  tool_node notebook_registry
    (State (messages inputs ++ [AIMessage (AI [] [recorded_call])]))
  = Ok (State [ToolMessage recorded_tool_output (py "get_weather")
                 (py "call_azW0cQ4XjWWj0IAkWAxq9nLB")]) ∧
  Forall (λ m, is_tool_message m = true ∧ Forall printable (content_of m))
    [ToolMessage recorded_tool_output (py "get_weather")
       (py "call_azW0cQ4XjWWj0IAkWAxq9nLB")].
Proof.
  split; [reflexivity|].
  exact (tool_message_content_printable notebook_registry
           (State (messages inputs ++ [AIMessage (AI [] [recorded_call])]))
           (State [ToolMessage recorded_tool_output (py "get_weather")
                     (py "call_azW0cQ4XjWWj0IAkWAxq9nLB")]) eq_refl).
Defined.

(** ** The agent step and the routing *)

(** X14: [call_model] raises only when the model client does, and then the
    same exception; when it returns, the state with the delta appended ends
    in the model's answer, so [should_continue] on it never raises: it
    returns "end" when the answer carries no tool call and "continue"
    otherwise.  This holds for every state, the empty one included. *)
Theorem call_model_then_route
    (model : list BaseMessage → RunnableConfig → result ai_message)
    (state : AgentState) (config : RunnableConfig) :
  match call_model model state config with
  | Ok delta =>
      ∃ response,
        model (system_prompt :: messages state) config = Ok response ∧
        messages delta = [AIMessage response] ∧
        should_continue (State (messages state ++ messages delta))
        = Ok (if ai_tool_calls response is [] then py "end" else py "continue")
  | Raise e => model (system_prompt :: messages state) config = Raise e
  end.
Proof.
  unfold call_model. cbn.
  destruct (model (system_prompt :: messages state) config) as [response|e];
    cbn; [|done].
  exists response. split; [done|]. split; [done|].
  rewrite should_continue_snoc. cbn. by destruct (ai_tool_calls response).
Qed.

(** X15: the routing table of the conditional edge has an entry for exactly
    the two labels "continue" and "end", and every label [should_continue]
    returns is one of them: looking up the label never raises [KeyError]. *)
Theorem routes_cover_labels :
  (∀ label, is_Some (routes !! label) ↔ label = py "continue" ∨ label = py "end") ∧
  (∀ state label, should_continue state = Ok label →
     ∃ target, getitem routes label = Ok target ∧
               (target = py "tools" ∨ target = END)).
Proof.
  split.
  - intros label. unfold routes. split.
    + intros [target Htarget].
      destruct (decide (label = py "continue")) as [|Hc]; [auto|].
      destruct (decide (label = py "end")) as [|He]; [auto|].
      rewrite lookup_insert_ne, lookup_insert_ne in Htarget by done.
      by rewrite lookup_empty in Htarget.
    + intros [-> | ->]; eexists; reflexivity.
  - intros state label (pre & ai & _ & ->)%should_continue_inv.
    destruct (truthy (ai_tool_calls ai)); cbn; eexists; (split; [reflexivity|auto]).
Qed.
